(** * Analytics engine of the energy backend

    A shallow embedding of [energy_backend/app/services/calculations.py]
    (with the record types of [app/schemas.py] and the bill list of
    [app/storage.py]) and the properties of its operations: usage projection,
    summary, trend analysis, the least-squares forecast and the advice rules.

    Python [float] values are kept abstract behind the interface [Num], which
    has two instances: IEEE binary64 ([PrimFloat], what the program runs on)
    and exact rationals ([Qc], the arithmetic the specification speaks in).
    Properties that only depend on control flow are proved once, for every
    instance; properties that need algebra are proved on the rationals.
    Python exceptions are results of type [result]. *)

From Stdlib Require Import ZArith String Bool List Lia.
From Stdlib Require Import Sorting.Sorted Sorting.Permutation.
From Stdlib Require Import QArith Qcanon Lqa.
From Stdlib Require PrimFloat Uint63 FloatAxioms SpecFloat FloatOps.
Import ListNotations.

Set Implicit Arguments.
Local Open Scope Z_scope.

(** ** Exceptions *)

Inductive exn : Set := ZeroDivisionError | IndexError.

Inductive result (A : Type) : Type :=
| Ok (a : A)
| Raise (e : exn).

Arguments Ok {A} a.
Arguments Raise {A} e.

Definition bind {A B : Type} (c : result A) (k : A -> result B) : result B :=
  match c with
  | Ok a => k a
  | Raise e => Raise e
  end.

Notation "x <- c ;; k" := (bind c (fun x => k))
  (at level 61, c at next level, right associativity).

(** A comprehension whose body may raise: elements are evaluated left to
    right and the first exception ends the evaluation. *)
Fixpoint mapM {A B : Type} (f : A -> result B) (l : list A) : result (list B) :=
  match l with
  | [] => Ok []
  | x :: t => y <- f x ;; ys <- mapM f t ;; Ok (y :: ys)
  end.

(** ** Python list primitives *)

(** [l[-1]]. *)
Definition py_last {A : Type} (l : list A) : result A :=
  match rev l with
  | [] => Raise IndexError
  | x :: _ => Ok x
  end.

(** [l[i]] for an index [i >= 0]. *)
Definition py_index {A : Type} (l : list A) (i : nat) : result A :=
  match nth_error l i with
  | Some x => Ok x
  | None => Raise IndexError
  end.

(** [l[-k:]] for [k > 0]: the last [k] items, the whole list when shorter. *)
Definition py_suffix {A : Type} (k : nat) (l : list A) : list A :=
  skipn (length l - k) l.

(** [l[i:j]] for [0 <= i <= j]. *)
Definition py_slice {A : Type} (i j : nat) (l : list A) : list A :=
  firstn (j - i) (skipn i l).

(** [l[:k]] for [k >= 0]. *)
Definition py_prefix {A : Type} (k : Z) (l : list A) : list A :=
  firstn (Z.to_nat k) l.

(** [range(lo, hi)]. *)
Definition range (lo hi : Z) : list Z :=
  map (fun i => lo + Z.of_nat i) (seq 0 (Z.to_nat (hi - lo))).

(** [enumerate(l)]. *)
Definition enumerate {A : Type} (l : list A) : list (nat * A) :=
  combine (seq 0 (length l)) l.

(** ** Stable sorting by a key

    [list.sort] and [sorted] are stable; a stable sort is determined by the
    order on keys, so insertion from the right computes the same list. *)

Section Sort.
Variable A : Type.
Variable le : A -> A -> bool.

Fixpoint insert (x : A) (l : list A) : list A :=
  match l with
  | [] => [x]
  | y :: t => if le x y then x :: y :: t else y :: insert x t
  end.

Definition sort (l : list A) : list A := fold_right insert [] l.

End Sort.

(** Keys are the tuples [(p.year, p.month)], compared lexicographically. *)
Definition period : Set := (Z * Z)%type.

Definition period_leb (a b : period) : bool :=
  (fst a <? fst b) || ((fst a =? fst b) && (snd a <=? snd b)).

Definition period_le (a b : period) : Prop :=
  fst a < fst b \/ (fst a = fst b /\ snd a <= snd b).

(** ** Numbers *)

Class Num (F : Type) : Type := {
  (** conversion of a Python [int] *)
  of_int : Z -> F;
  (** the literals [0.15] and [0.6] *)
  lit_0_15 : F;
  lit_0_6 : F;
  fadd : F -> F -> F;
  fsub : F -> F -> F;
  fmul : F -> F -> F;
  (** the quotient, for a non-zero divisor *)
  fquot : F -> F -> F;
  feqb : F -> F -> bool;
  fltb : F -> F -> bool;
  fleb : F -> F -> bool;
  (** what the guards [x > 0] rely on *)
  pos_nonzero : forall x, fltb (of_int 0) x = true -> feqb x (of_int 0) = false
}.

(** ** Records of [schemas.py] *)

Module BillRead.
Record t (F : Type) : Type := mk {
  id : Z;
  year : Z;
  month : Z;
  kilowatt_hours : F;
  cost : F;
  emission_factor_kg_per_kwh : F
}.
End BillRead.

Module UsagePoint.
Record t (F : Type) : Type := mk {
  year : Z;
  month : Z;
  kilowatt_hours : F;
  cost : F;
  emissions_kg : F
}.
End UsagePoint.

Module UsageSummary.
Record t (F : Type) : Type := mk {
  total_kwh : F;
  total_cost : F;
  total_emissions_kg : F;
  average_kwh : F;
  average_cost : F;
  average_emissions_kg : F
}.
End UsageSummary.

Module TrendPoint.
Record t (F : Type) : Type := mk {
  year : Z;
  month : Z;
  kilowatt_hours : F;
  month_over_month_delta_kwh : option F;
  moving_average_3mo_kwh : option F
}.
End TrendPoint.

Module PredictionPoint.
Record t (F : Type) : Type := mk {
  year : Z;
  month : Z;
  predicted_kwh : F
}.
End PredictionPoint.

Module PredictionResult.
Record t (F : Type) : Type := mk {
  horizon_months : Z;
  predictions : list (PredictionPoint.t F)
}.
End PredictionResult.

Module AdviceItem.
Record t : Set := mk {
  title : string;
  detail : string
}.
End AdviceItem.

(** ** The fixed advice texts *)

Definition tip_add_data : AdviceItem.t :=
  AdviceItem.mk "Add data" "Submit recent bills to unlock insights and advice.".

Definition tip_high_cost : AdviceItem.t :=
  AdviceItem.mk "High cost per kWh"
    ("Consider switching to a time-of-use plan, shifting heavy loads to off-peak, "
     ++ "or auditing for phantom loads (standby electronics).").

Definition tip_rising : AdviceItem.t :=
  AdviceItem.mk "Rising energy usage"
    ("Usage is trending up. Check HVAC filters, lighting schedules, and appliance efficiency. "
     ++ "Seal drafts and consider LED retrofits.").

Definition tip_carbon : AdviceItem.t :=
  AdviceItem.mk "Carbon intensity is high"
    "Your grid has relatively high CO2e/kWh. Consider rooftop solar or purchasing green energy credits.".

Definition tip_quick_wins : AdviceItem.t :=
  AdviceItem.mk "Quick wins"
    ("Set thermostats efficiently (24-26°C cooling, 19-21°C heating), use smart power strips, "
     ++ "and schedule appliances.").

(** ** [services/calculations.py]

    The module reads the bills through [storage.list_bills()]; here the bill
    list is the argument [bills] of every operation.  [TrendAnalysis] and
    [AdviceBundle] wrap one list each and are that list here. *)

Section Calculations.
Context {F : Type} {num : Num F}.

Let Bill : Type := BillRead.t F.
Let Point : Type := UsagePoint.t F.

(** [max(0.0, value)]: the second argument wins only when it is greater. *)
Definition max0 (value : F) : F :=
  if fltb (of_int 0) value then value else of_int 0.

(** [a / b] on floats. *)
Definition truediv (a b : F) : result F :=
  if feqb b (of_int 0) then Raise ZeroDivisionError else Ok (fquot a b).

(** [a / n] for an [int] [n]: the converted divisor is zero exactly when [n] is. *)
Definition truediv_int (a : F) (n : Z) : result F :=
  if n =? 0 then Raise ZeroDivisionError else Ok (fquot a (of_int n)).

(** [sum(xs)] on floats: additions from the left, starting at the int [0].
    (Interpreters from 3.12 on compensate the rounding error of a float sum;
    the two agree on the rationals and wherever the binary64 sum is exact.) *)
Definition fsum (xs : list F) : F := fold_left fadd xs (of_int 0).

(** [sum(xs)] on ints. *)
Definition zsum (xs : list Z) : Z := fold_left Z.add xs 0.

Definition _emissions_kg (kwh factor : F) : F := fmul kwh factor.

Definition project (b : Bill) : Point :=
  UsagePoint.mk (BillRead.year b) (BillRead.month b) (BillRead.kilowatt_hours b)
    (BillRead.cost b)
    (_emissions_kg (BillRead.kilowatt_hours b) (BillRead.emission_factor_kg_per_kwh b)).

Definition get_usage_points (bills : list Bill) : list Point := map project bills.

Definition key (p : Point) : period := (UsagePoint.year p, UsagePoint.month p).

(** [l.sort(key=lambda p: (p.year, p.month))] and [sorted(l, key=...)]. *)
Definition sort_asc (l : list Point) : list Point :=
  sort (fun p q => period_leb (key p) (key q)) l.

(** [l.sort(key=lambda p: (p.year, p.month), reverse=True)]. *)
Definition sort_desc (l : list Point) : list Point :=
  sort (fun p q => period_leb (key q) (key p)) l.

Definition get_recent_usage (bills : list Bill) (limit : Z) : list Point :=
  let pts := sort_desc (get_usage_points bills) in
  py_prefix (Z.max 0 limit) pts.

Definition build_summary (bills : list Bill) : result (UsageSummary.t F) :=
  let pts := get_usage_points bills in
  match pts with
  | [] =>
      Ok (UsageSummary.mk (of_int 0) (of_int 0) (of_int 0) (of_int 0) (of_int 0) (of_int 0))
  | _ :: _ =>
      let total_kwh := fsum (map (@UsagePoint.kilowatt_hours F) pts) in
      let total_cost := fsum (map (@UsagePoint.cost F) pts) in
      let total_emissions := fsum (map (@UsagePoint.emissions_kg F) pts) in
      let n := Z.of_nat (length pts) in
      average_kwh <- truediv_int total_kwh n ;;
      average_cost <- truediv_int total_cost n ;;
      average_emissions_kg <- truediv_int total_emissions n ;;
      Ok (UsageSummary.mk total_kwh total_cost total_emissions
            average_kwh average_cost average_emissions_kg)
  end.

(** The body of the loop of [analyze_trends], at index [idx] and point [p]. *)
Definition trend_point (pts : list Point) (kwh_series : list F)
  (idx : nat) (p : Point) : result (TrendPoint.t F) :=
  delta <- (if (0 <? idx)%nat
            then q <- py_index pts (idx - 1) ;;
                 Ok (Some (fsub (UsagePoint.kilowatt_hours p) (UsagePoint.kilowatt_hours q)))
            else Ok None) ;;
  moving_avg <- (if (2 <=? idx)%nat
                 then let window := py_slice (idx - 2) (idx + 1) kwh_series in
                      (* the divisor is the literal [3.0] *)
                      m <- truediv_int (fsum window) 3 ;;
                      Ok (Some m)
                 else Ok None) ;;
  Ok (TrendPoint.mk (UsagePoint.year p) (UsagePoint.month p)
        (UsagePoint.kilowatt_hours p) delta moving_avg).

Definition analyze_trends (bills : list Bill) : result (list (TrendPoint.t F)) :=
  let pts := sort_asc (get_usage_points bills) in
  let kwh_series := map (@UsagePoint.kilowatt_hours F) pts in
  mapM (fun ip => trend_point pts kwh_series (fst ip) (snd ip)) (enumerate pts).

Definition _linear_regression_predict (y_values : list F) (horizon : Z)
  : result (list F) :=
  let n := Z.of_nat (length y_values) in
  if n =? 0 then Ok (map (fun _ => of_int 0) (range 0 horizon)) else
  let x_vals := range 1 (n + 1) in
  mean_x <- truediv_int (of_int (zsum x_vals)) n ;;
  mean_y <- truediv_int (fsum y_values) n ;;
  let ss_xy :=
    fsum (map (fun xy => fmul (fsub (of_int (fst xy)) mean_x) (fsub (snd xy) mean_y))
            (combine x_vals y_values)) in
  (* [(x - mean_x) ** 2] is the product of the difference with itself *)
  let ss_xx :=
    fsum (map (fun x => let d := fsub (of_int x) mean_x in fmul d d) x_vals) in
  if feqb ss_xx (of_int 0) then
    last <- py_last y_values ;;
    Ok (map (fun _ => last) (range 0 horizon))
  else
    b <- truediv ss_xy ss_xx ;;
    let a := fsub mean_y (fmul b mean_x) in
    Ok (map (fun h => let x_future := n + h in fadd a (fmul b (of_int x_future)))
          (range 1 (horizon + 1))).

(** The loop of [predict_usage] over [preds], from the running [(year, month)]. *)
Fixpoint assign_periods (year month : Z) (preds : list F)
  : list (PredictionPoint.t F) :=
  match preds with
  | [] => []
  | value :: rest =>
      let month := month + 1 in
      let ym := if 12 <? month then (year + 1, 1) else (year, month) in
      PredictionPoint.mk (fst ym) (snd ym) (max0 value)
        :: assign_periods (fst ym) (snd ym) rest
  end.

Definition predict_usage (bills : list Bill) (horizon_months : Z)
  : result (PredictionResult.t F) :=
  let pts := sort_asc (get_usage_points bills) in
  let y_values := map (@UsagePoint.kilowatt_hours F) pts in
  preds <- _linear_regression_predict y_values horizon_months ;;
  start <- match pts with
           | [] => Ok (2000, 1)
           | _ :: _ => p <- py_last pts ;; Ok (UsagePoint.year p, UsagePoint.month p)
           end ;;
  Ok (PredictionResult.mk horizon_months
        (assign_periods (fst start) (snd start) preds)).

Definition generate_advice (bills : list Bill) : result (list AdviceItem.t) :=
  let pts := get_usage_points bills in
  match pts with
  | [] => Ok [tip_add_data]
  | _ :: _ =>
      let tips := [] in
      latest <- py_last (sort_asc pts) ;;
      cost_per_kwh <-
        (if fltb (of_int 0) (UsagePoint.kilowatt_hours latest)
         then truediv (UsagePoint.cost latest) (UsagePoint.kilowatt_hours latest)
         else Ok (of_int 0)) ;;
      let tips := if fltb lit_0_15 cost_per_kwh then tips ++ [tip_high_cost] else tips in
      tips <-
        (if (3 <=? length pts)%nat
         then let last3 := py_suffix 3 (sort_asc pts) in
              hi <- py_index last3 2 ;;
              lo <- py_index last3 0 ;;
              Ok (if fltb (UsagePoint.kilowatt_hours lo) (UsagePoint.kilowatt_hours hi)
                  then tips ++ [tip_rising] else tips)
         else Ok tips) ;;
      let total_kwh := fsum (map (@UsagePoint.kilowatt_hours F) pts) in
      let total_emissions := fsum (map (@UsagePoint.emissions_kg F) pts) in
      avg_emission_factor <-
        (if fltb (of_int 0) total_kwh then truediv total_emissions total_kwh
         else Ok (of_int 0)) ;;
      let tips := if fleb lit_0_6 avg_emission_factor then tips ++ [tip_carbon] else tips in
      Ok (tips ++ [tip_quick_wins])
  end.

End Calculations.

(** ** Vocabulary of the properties *)

Section Vocabulary.
Context {F : Type} {num : Num F}.

(** Ascending and descending order of usage points by [(year, month)]. *)
Definition asc (p q : UsagePoint.t F) : Prop := period_le (key p) (key q).
Definition desc (p q : UsagePoint.t F) : Prop := period_le (key q) (key p).

Definition bill_key (b : BillRead.t F) : period := (BillRead.year b, BillRead.month b).

(** [yp] is the chronologically latest period among [bills]. *)
Definition latest_period (bills : list (BillRead.t F)) (yp : period) : Prop :=
  (exists b, In b bills /\ bill_key b = yp)
  /\ (forall b, In b bills -> period_le (bill_key b) yp).

Definition trend_key (t : TrendPoint.t F) : period :=
  (TrendPoint.year t, TrendPoint.month t).

(** The trend point the loop builds at index [idx], without the failure cases. *)
Definition trend_of (pts : list (UsagePoint.t F)) (idx : nat) (p : UsagePoint.t F)
  : TrendPoint.t F :=
  TrendPoint.mk (UsagePoint.year p) (UsagePoint.month p) (UsagePoint.kilowatt_hours p)
    match idx with
    | O => None
    | S j =>
        option_map
          (fun q => fsub (UsagePoint.kilowatt_hours p) (UsagePoint.kilowatt_hours q))
          (nth_error pts j)
    end
    match idx with
    | S (S j) =>
        match nth_error pts j, nth_error pts (S j) with
        | Some a, Some b =>
            Some (fquot (fsum [UsagePoint.kilowatt_hours a; UsagePoint.kilowatt_hours b;
                               UsagePoint.kilowatt_hours p])
                    (of_int 3))
        | _, _ => None
        end
    | _ => None
    end.

(** The three conditions of the rules, read off the sorted points from the
    latest backwards. *)
Definition cost_per_kwh (latest : UsagePoint.t F) : F :=
  if fltb (of_int 0) (UsagePoint.kilowatt_hours latest)
  then fquot (UsagePoint.cost latest) (UsagePoint.kilowatt_hours latest)
  else of_int 0.

Definition high_cost_cond (pts : list (UsagePoint.t F)) : bool :=
  match rev (sort_asc pts) with
  | [] => false
  | latest :: _ => fltb lit_0_15 (cost_per_kwh latest)
  end.

Definition rising_cond (pts : list (UsagePoint.t F)) : bool :=
  match rev (sort_asc pts) with
  | hi :: _ :: lo :: _ =>
      fltb (UsagePoint.kilowatt_hours lo) (UsagePoint.kilowatt_hours hi)
  | _ => false
  end.

Definition avg_emission_factor (pts : list (UsagePoint.t F)) : F :=
  let total_kwh := fsum (map (@UsagePoint.kilowatt_hours F) pts) in
  let total_emissions := fsum (map (@UsagePoint.emissions_kg F) pts) in
  if fltb (of_int 0) total_kwh then fquot total_emissions total_kwh else of_int 0.

Definition carbon_cond (pts : list (UsagePoint.t F)) : bool :=
  fleb lit_0_6 (avg_emission_factor pts).

Definition pick (c : bool) (t : AdviceItem.t) : list AdviceItem.t :=
  if c then [t] else [].

End Vocabulary.

(** The sum of squared deviations that the regression computes on one point. *)
Definition ss_xx_single {F : Type} (num : Num F) : F :=
  let mean_x := fquot (of_int (zsum (range 1 2))) (of_int 1) in
  fsum (map (fun x => let d := fsub (of_int x) mean_x in fmul d d) (range 1 2)).

(** A single bill with [kwh = 100], [cost = 20] whose average emission
    factor reaches [0.6] gets the high-cost, carbon and quick-wins tips. *)
Definition single_point_advice (F : Type) (num : Num F) : Prop :=
  forall (id y m : Z) (factor : F),
    let b := BillRead.mk id y m (of_int 100) (of_int 20) factor in
    fleb lit_0_6 (avg_emission_factor (get_usage_points [b])) = true ->
    generate_advice [b] = Ok [tip_high_cost; tip_carbon; tip_quick_wins].

(** A single bill with positive kWh is forecast flat, for every horizon. *)
Definition single_record_flat (F : Type) (num : Num F) : Prop :=
  forall (b : BillRead.t F) (h : Z),
    fltb (of_int 0) (BillRead.kilowatt_hours b) = true ->
    exists r,
      predict_usage [b] h = Ok r
      /\ PredictionResult.horizon_months r = h
      /\ map (@PredictionPoint.predicted_kwh F) (PredictionResult.predictions r)
         = repeat (BillRead.kilowatt_hours b) (Z.to_nat h).

(** ** The two number systems *)

(** *** Exact rationals *)

Definition Qc_ltb (a b : Qc) : bool :=
  match (a ?= b)%Qc with Lt => true | _ => false end.

Definition Qc_leb (a b : Qc) : bool :=
  match (a ?= b)%Qc with Gt => false | _ => true end.

Definition Qc_of_int (z : Z) : Qc := Q2Qc (inject_Z z).

Lemma Qc_ltb_lt (a b : Qc) : Qc_ltb a b = true <-> (a < b)%Qc.
Proof.
  unfold Qc_ltb. rewrite Qclt_alt. destruct (a ?= b)%Qc; split; congruence.
Qed.

Lemma Qc_eq_bool_false (a b : Qc) : a <> b -> Qc_eq_bool a b = false.
Proof.
  intros Hab. destruct (Qc_eq_bool a b) eqn:E; [|reflexivity].
  apply Qc_eq_bool_correct in E. contradiction.
Qed.

Lemma Qc_pos_nonzero (x : Qc) :
  Qc_ltb (Qc_of_int 0) x = true -> Qc_eq_bool x (Qc_of_int 0) = false.
Proof.
  intros H. apply Qc_ltb_lt in H. apply Qc_eq_bool_false.
  intros ->. exact (Qclt_not_eq _ _ H eq_refl).
Qed.

#[export] Instance Num_Qc : Num Qc := {|
  of_int := Qc_of_int;
  lit_0_15 := Q2Qc (15 # 100);
  lit_0_6 := Q2Qc (6 # 10);
  fadd := Qcplus;
  fsub := Qcminus;
  fmul := Qcmult;
  fquot := Qcdiv;
  feqb := Qc_eq_bool;
  fltb := Qc_ltb;
  fleb := Qc_leb;
  pos_nonzero := Qc_pos_nonzero
|}.

(** *** IEEE binary64 *)

Module Binary64.
Import PrimFloat.

(** Conversion of an [int] of magnitude below [2^63] (list lengths, indices and
    the literals of the module are all far below). *)
Definition float_of_int (z : Z) : float :=
  if (z <? 0)%Z then opp (of_uint63 (Uint63.of_Z (- z)))
  else of_uint63 (Uint63.of_Z z).

Lemma float_pos_nonzero (x : float) :
  ltb (float_of_int 0) x = true -> eqb x (float_of_int 0) = false.
Proof.
  rewrite FloatAxioms.ltb_spec, FloatAxioms.eqb_spec.
  change (FloatOps.Prim2SF (float_of_int 0)) with (SpecFloat.S754_zero false).
  destruct (FloatOps.Prim2SF x) as [s | s | | s m e]; try destruct s; cbv; congruence.
Qed.

(** The doubles nearest to [0.15] and [0.6], as the interpreter reads them. *)
Definition float_0_15 : float := (0x1.3333333333333p-3)%float.
Definition float_0_6 : float := (0x1.3333333333333p-1)%float.

#[global] Instance Num_float : Num float := {|
  of_int := float_of_int;
  lit_0_15 := float_0_15;
  lit_0_6 := float_0_6;
  fadd := add;
  fsub := sub;
  fmul := mul;
  fquot := div;
  feqb := eqb;
  fltb := ltb;
  fleb := leb;
  pos_nonzero := float_pos_nonzero
|}.

(** The two literals are the correctly rounded quotients [15/100] and [6/10]. *)
Lemma float_literals :
  float_0_15 = div (float_of_int 15) (float_of_int 100)
  /\ float_0_6 = div (float_of_int 6) (float_of_int 10).
Proof. split; vm_compute; reflexivity. Qed.

End Binary64.

(** ** The formulas of the specification, on the rationals *)

Section ExactVocabulary.
Local Open Scope Qc_scope.

(** The sum of a sequence. *)
Fixpoint sigma (l : list Qc) : Qc :=
  match l with
  | [] => 0
  | x :: t => x + sigma t
  end.

(** The sequence index [x = 1..n]. *)
Definition xs_of (n : nat) : list Qc :=
  map (fun i => Qc_of_int (Z.of_nat i)) (seq 1 n).

Definition mean (l : list Qc) : Qc := sigma l / Qc_of_int (Z.of_nat (length l)).

(** Slope [b = sum (x - meanX)(y - meanY) / sum (x - meanX)^2]. *)
Definition ols_slope (ys : list Qc) : Qc :=
  let xs := xs_of (length ys) in
  sigma (map (fun xy => (fst xy - mean xs) * (snd xy - mean ys)) (combine xs ys))
  / sigma (map (fun x => (x - mean xs) ^ 2) xs).

(** Intercept [a = meanY - b * meanX]. *)
Definition ols_intercept (ys : list Qc) : Qc :=
  mean ys - ols_slope ys * mean (xs_of (length ys)).

(** The fitted line at future step [h], [a + b * (n + h)]. *)
Definition ols_forecast (ys : list Qc) (h : Z) : Qc :=
  ols_intercept ys + ols_slope ys * Qc_of_int (Z.of_nat (length ys) + h).

(** [max(a, b)] on rationals. *)
Definition Qc_max (a b : Qc) : Qc := if Qc_leb a b then b else a.

End ExactVocabulary.

(** ** Sample bills on binary64 *)

Definition bill_f (id y m kwh cost : Z) : BillRead.t PrimFloat.float :=
  BillRead.mk id y m (Binary64.float_of_int kwh) (Binary64.float_of_int cost)
    (PrimFloat.div (Binary64.float_of_int 7) (Binary64.float_of_int 10)).

(** Three months of 2023, stored out of order. *)
Definition bills_2023 : list (BillRead.t PrimFloat.float) :=
  [bill_f 2 2023 2 120 30; bill_f 3 2023 3 150 40; bill_f 1 2023 1 90 20].

(** ** [storage.py]

    The store keeps an id counter and the list of bills.  Saving writes the
    list to a file and ignores failures, so it leaves the store as it is;
    the list read back from the file, validated, is the argument of [_load]
    ([None] when the file is absent or unreadable). *)

Module BillCreate.
Record t (F : Type) : Type := mk {
  year : Z;
  month : Z;
  kilowatt_hours : F;
  cost : F;
  emission_factor_kg_per_kwh : F
}.
End BillCreate.

Module IdCounter.
Record t : Set := mk { next_id : Z }.
End IdCounter.

Module InMemoryStorage.
Record t (F : Type) : Type := mk {
  _id_counter : IdCounter.t;
  _bills : list (BillRead.t F)
}.
End InMemoryStorage.

Module CurrentMonthReport.
Record t (F : Type) : Type := mk {
  year : Z;
  month : Z;
  kilowatt_hours : F;
  cost : F;
  emissions_kg : F
}.
End CurrentMonthReport.

Definition period_lt (a b : period) : Prop :=
  fst a < fst b \/ (fst a = fst b /\ snd a < snd b).

Section Storage.
Context {F : Type} {num : Num F}.

(** Bills in ascending order of period, and in strictly ascending order (no
    period twice). *)
Definition bills_sorted (l : list (BillRead.t F)) : Prop :=
  StronglySorted (fun a b => period_le (bill_key a) (bill_key b)) l.

Definition bills_strictly_sorted (l : list (BillRead.t F)) : Prop :=
  StronglySorted (fun a b => period_lt (bill_key a) (bill_key b)) l.

(** Every stored id is below the next id of the counter. *)
Definition ids_fresh (s : InMemoryStorage.t F) : Prop :=
  Forall (fun b => BillRead.id b < IdCounter.next_id (InMemoryStorage._id_counter s))
    (InMemoryStorage._bills s).

Definition allocate (c : IdCounter.t) : Z * IdCounter.t :=
  let current := IdCounter.next_id c in
  (current, IdCounter.mk (IdCounter.next_id c + 1)).

(** [self._bills.sort(key=lambda b: (b.year, b.month))]. *)
Definition sort_bills (l : list (BillRead.t F)) : list (BillRead.t F) :=
  sort (fun a b => period_leb (bill_key a) (bill_key b)) l.

Definition add_bill (s : InMemoryStorage.t F) (bill : BillCreate.t F)
  : BillRead.t F * InMemoryStorage.t F :=
  let ic := allocate (InMemoryStorage._id_counter s) in
  let new_bill :=
    BillRead.mk (fst ic) (BillCreate.year bill) (BillCreate.month bill)
      (BillCreate.kilowatt_hours bill) (BillCreate.cost bill)
      (BillCreate.emission_factor_kg_per_kwh bill) in
  (new_bill,
   InMemoryStorage.mk (snd ic) (sort_bills (InMemoryStorage._bills s ++ [new_bill]))).

Definition list_bills (s : InMemoryStorage.t F) : list (BillRead.t F) :=
  InMemoryStorage._bills s.

(** The loop of [find_bill]. *)
Fixpoint find_in (bills : list (BillRead.t F)) (year month : Z)
  : option (BillRead.t F) :=
  match bills with
  | [] => None
  | b :: rest =>
      if (BillRead.year b =? year) && (BillRead.month b =? month) then Some b
      else find_in rest year month
  end.

Definition find_bill (s : InMemoryStorage.t F) (year month : Z)
  : option (BillRead.t F) :=
  find_in (InMemoryStorage._bills s) year month.

Definition latest_bill (s : InMemoryStorage.t F) : option (BillRead.t F) :=
  match rev (InMemoryStorage._bills s) with
  | [] => None
  | b :: _ => Some b
  end.

(** [max(b.id for b in bills)] on a list with first item [b]. *)
Definition max_id (b : BillRead.t F) (rest : list (BillRead.t F)) : Z :=
  fold_left Z.max (map (@BillRead.id F) rest) (BillRead.id b).

(** [__init__] followed by [_load]: a fresh counter and no bills, then the
    bills of the file and the counter past their largest id. *)
Definition _load (items : option (list (BillRead.t F))) : InMemoryStorage.t F :=
  match items with
  | Some (b :: rest) =>
      InMemoryStorage.mk (IdCounter.mk (max_id b rest + 1)) (b :: rest)
  | Some [] => InMemoryStorage.mk (IdCounter.mk 1) []
  | None => InMemoryStorage.mk (IdCounter.mk 1) []
  end.

(** [current_month_report] of [calculations.py], on the store. *)
Definition current_month_report (s : InMemoryStorage.t F)
  : option (CurrentMonthReport.t F) :=
  match latest_bill s with
  | None => None
  | Some b =>
      Some (CurrentMonthReport.mk (BillRead.year b) (BillRead.month b)
              (BillRead.kilowatt_hours b) (BillRead.cost b)
              (_emissions_kg (BillRead.kilowatt_hours b)
                 (BillRead.emission_factor_kg_per_kwh b)))
  end.

(** The stores the program can be in: what [_load] builds, and what
    [add_bill] makes of such a store. *)
Inductive reachable : InMemoryStorage.t F -> Prop :=
| reachable_load (items : option (list (BillRead.t F))) : reachable (_load items)
| reachable_add (s : InMemoryStorage.t F) (bill : BillCreate.t F) :
    reachable s -> reachable (snd (add_bill s bill)).

End Storage.

(** ** Handlers of [flask_app.py] that compute *)

Module KwhEmissions.
Record t (F : Type) : Type := mk {
  kwh : F;
  emissions_kg : F
}.
End KwhEmissions.

Module AveragesResponse.
Record t (F : Type) : Type := mk {
  last_month : KwhEmissions.t F;
  six_month_avg : KwhEmissions.t F
}.
End AveragesResponse.

(** What [estimate_factor] answers: a 400 with its detail, or the estimate
    with the inputs it echoes. *)
Inductive EstimateResponse (F : Type) : Type :=
| EstimateRefused (detail : string)
| Estimate (estimated_emission_factor_kg_per_kwh total_cost kwh
            energy_price_per_kwh carbon_price_per_kg : F).

Arguments EstimateRefused {F} detail.
Arguments Estimate {F} _ _ _ _ _.

Section Handlers.
Context {F : Type} {num : Num F}.

(** [averages]: the last month and the mean of the last six, of the points
    sorted ascending. *)
Definition averages (bills : list (BillRead.t F)) : result (AveragesResponse.t F) :=
  let pts := sort_asc (get_usage_points bills) in
  last <- match pts with
          | [] => Ok None
          | _ :: _ => p <- py_last pts ;; Ok (Some p)
          end ;;
  let last_month :=
    KwhEmissions.mk
      match last with Some p => UsagePoint.kilowatt_hours p | None => of_int 0 end
      match last with Some p => UsagePoint.emissions_kg p | None => of_int 0 end in
  let last6 := match pts with [] => [] | _ :: _ => py_suffix 6 pts end in
  let n := match last6 with [] => 0 | _ :: _ => Z.of_nat (length last6) end in
  avg_kwh <- (if n =? 0 then Ok (of_int 0)
              else truediv_int (fsum (map (@UsagePoint.kilowatt_hours F) last6)) n) ;;
  avg_emissions <- (if n =? 0 then Ok (of_int 0)
                    else truediv_int (fsum (map (@UsagePoint.emissions_kg F) last6)) n) ;;
  Ok (AveragesResponse.mk last_month (KwhEmissions.mk avg_kwh avg_emissions)).

(** The defaults [0.10] and [0.05] of [estimate_factor], as the correctly
    rounded quotients [10/100] and [5/100]. *)
Definition default_energy_price : F := fquot (of_int 10) (of_int 100).
Definition default_carbon_price : F := fquot (of_int 5) (of_int 100).

(** [estimate_factor] once [total_cost] and [kwh] are converted to floats;
    an optional price is [None] when the request leaves it out. *)
Definition estimate_factor (total_cost kwh : F)
  (energy_price carbon_price : option F) : result (EstimateResponse F) :=
  if fleb kwh (of_int 0) then Ok (EstimateRefused "kwh must be > 0") else
  let energy_price_per_kwh :=
    match energy_price with Some p => p | None => default_energy_price end in
  let carbon_price_per_kg :=
    match carbon_price with Some p => p | None => default_carbon_price end in
  if fleb carbon_price_per_kg (of_int 0)
  then Ok (EstimateRefused "carbon_price_per_kg must be > 0") else
  cost_per_kwh <- truediv total_cost kwh ;;
  raw <- truediv (fsub cost_per_kwh energy_price_per_kwh) carbon_price_per_kg ;;
  let estimated_factor := max0 raw in
  Ok (Estimate estimated_factor total_cost kwh energy_price_per_kwh carbon_price_per_kg).

End Handlers.

(** ** The token check and the one-time password of [flask_app.py] *)

Section Tokens.
Import Ascii.

(** [s.split(sep, 1)] for a separator of one character: the text before the
    first separator and the text after it, or the whole text alone. *)
Fixpoint split_once (sep : Ascii.ascii) (s : string) : string * option string :=
  match s with
  | EmptyString => (EmptyString, None)
  | String c rest =>
      if Ascii.eqb c sep then (EmptyString, Some rest)
      else (String c (fst (split_once sep rest)), snd (split_once sep rest))
  end.

(** The negation of the test that answers 401 in [create_bill]:
    [auth.startswith("Bearer ") and auth.split(" ", 1)[1] in issued_tokens]. *)
Definition bearer_token_issued (issued_tokens : list string) (auth : string)
  : result bool :=
  if String.prefix "Bearer " auth then
    match snd (split_once " "%char auth) with
    | Some token => Ok (existsb (String.eqb token) issued_tokens)
    | None => Raise IndexError
    end
  else Ok false.

(** [int.from_bytes(bs, 'big')]. *)
Definition int_from_bytes_big (bs : list Z) : Z :=
  fold_left (fun acc b => 256 * acc + b) bs 0.

Definition digit_char (d : Z) : Ascii.ascii := Ascii.ascii_of_nat (48 + Z.to_nat d).

(** The decimal digits of [n >= 0] in front of [acc]; [fuel] bounds the
    number of digits. *)
Fixpoint decimal_digits (fuel : nat) (n : Z) (acc : string) : string :=
  match fuel with
  | O => acc
  | S fuel' =>
      let acc' := String (digit_char (n mod 10)) acc in
      if n / 10 =? 0 then acc' else decimal_digits fuel' (n / 10) acc'
  end.

(** [str(n)] for an int [n >= 0]. *)
Definition str_of_int (n : Z) : string :=
  decimal_digits (S (Z.to_nat (Z.log2 n))) n EmptyString.

Fixpoint zeros (k : nat) : string :=
  match k with
  | O => EmptyString
  | S k' => String "0"%char (zeros k')
  end.

(** [s.zfill(width)] for a string without a sign. *)
Definition zfill (width : nat) (s : string) : string :=
  append (zeros (width - String.length s)) s.

(** The one-time password of [request_otp], from the bytes of [os.urandom(2)]. *)
Definition otp_of_random (random_bytes : list Z) : string :=
  zfill 6 (str_of_int (int_from_bytes_big random_bytes mod 1000000)).

(** [int(s)] for a string of decimal digits. *)
Definition int_of_digits (s : string) : Z :=
  fold_left (fun acc c => 10 * acc + (Z.of_nat (Ascii.nat_of_ascii c) - 48))
    (list_ascii_of_string s) 0.

End Tokens.

Inductive CreateBillResponse (F : Type) : Type :=
| Unauthorized
| BadRequest (detail : string)
| Created (bill : BillRead.t F).

Arguments Unauthorized {F}.
Arguments BadRequest {F} detail.
Arguments Created {F} bill.

(** [create_bill]: [data] is what the construction of [BillCreate] makes of
    the request body, the validated bill or the text of the validation error. *)
Definition create_bill {F : Type} (issued_tokens : list string)
  (s : InMemoryStorage.t F) (auth : string) (data : string + BillCreate.t F)
  : result (CreateBillResponse F * InMemoryStorage.t F) :=
  issued <- bearer_token_issued issued_tokens auth ;;
  if negb issued then Ok (Unauthorized, s) else
  match data with
  | inl detail => Ok (BadRequest detail, s)
  | inr bill =>
      match find_bill s (BillCreate.year bill) (BillCreate.month bill) with
      | Some _ => Ok (BadRequest "Bill for this month already exists", s)
      | None => let cs := add_bill s bill in Ok (Created (fst cs), snd cs)
      end
  end.


(** ** Sample stores *)

Definition create_f (y m kwh cost : Z) : BillCreate.t PrimFloat.float :=
  BillCreate.mk y m (Binary64.float_of_int kwh) (Binary64.float_of_int cost)
    (PrimFloat.div (Binary64.float_of_int 7) (Binary64.float_of_int 10)).

(** February, March and January of 2023, created in this order in a store
    that starts without a data file. *)
Definition store_2023 : InMemoryStorage.t PrimFloat.float :=
  snd (add_bill
         (snd (add_bill (snd (add_bill (_load None) (create_f 2023 2 120 30)))
                 (create_f 2023 3 150 40)))
         (create_f 2023 1 90 20)).

Definition bill_q (id y m kwh cost : Z) : BillRead.t Qc :=
  BillRead.mk id y m (Qc_of_int kwh) (Qc_of_int cost) (Q2Qc (7 # 10)).

(** January and February of 2023 on the rationals, 100 and 300 kWh. *)
Definition bills_q : list (BillRead.t Qc) :=
  [bill_q 1 2023 1 100 20; bill_q 2 2023 2 300 50].

Definition period_ltb (a b : period) : bool :=
  period_leb a b && negb (period_leb b a).

(** A list of periods in strictly ascending order. *)
Fixpoint strictly_ascending (ks : list period) : bool :=
  match ks with
  | [] => true
  | k :: rest => forallb (period_ltb k) rest && strictly_ascending rest
  end.

(** * Properties *)

(** ** Lists and results *)

Lemma mapM_pure {A B : Type} (f : A -> result B) (g : A -> B) (l : list A) :
  (forall x, In x l -> f x = Ok (g x)) -> mapM f l = Ok (map g l).
Proof.
  induction l as [|x t IH]; intros Hf; simpl; [reflexivity|].
  rewrite (Hf x (or_introl eq_refl)). simpl.
  rewrite IH by (intros y Hy; apply Hf; right; exact Hy).
  reflexivity.
Qed.

Lemma py_last_app {A : Type} (l : list A) (x : A) : py_last (l ++ [x]) = Ok x.
Proof.
  unfold py_last. rewrite rev_app_distr. reflexivity.
Qed.

Lemma py_last_cons_ok {A : Type} (x : A) (l : list A) :
  exists y, py_last (x :: l) = Ok y /\ In y (x :: l).
Proof.
  destruct (exists_last (l := x :: l)) as [front [y Hy]]; [discriminate|].
  exists y. rewrite Hy, py_last_app. split; [reflexivity|].
  apply in_or_app. right. left. reflexivity.
Qed.

Lemma range_length (lo hi : Z) : length (range lo hi) = Z.to_nat (hi - lo).
Proof.
  unfold range. rewrite length_map, length_seq. reflexivity.
Qed.

Lemma enumerate_In {A : Type} (l : list A) (i : nat) (x : A) :
  In (i, x) (enumerate l) -> nth_error l i = Some x.
Proof.
  unfold enumerate.
  assert (G : forall (t : list A) (s j : nat),
             In (j, x) (combine (seq s (length t)) t) ->
             (s <= j)%nat /\ nth_error t (j - s) = Some x).
  { induction t as [|y t IH]; simpl; intros s j H; [contradiction|].
    destruct H as [H|H].
    - inversion H; subst. rewrite Nat.sub_diag. split; [lia|reflexivity].
    - apply IH in H. destruct H as [Hle Hn]. split; [lia|].
      replace (j - s)%nat with (S (j - S s)) by lia. exact Hn. }
  intros H. apply G in H. destruct H as [_ H].
  rewrite Nat.sub_0_r in H. exact H.
Qed.

Lemma enumerate_nth {A : Type} (l : list A) (i : nat) (x : A) :
  nth_error l i = Some x -> nth_error (enumerate l) i = Some (i, x).
Proof.
  unfold enumerate.
  assert (G : forall (t : list A) (s j : nat),
             nth_error t j = Some x ->
             nth_error (combine (seq s (length t)) t) j = Some ((s + j)%nat, x)).
  { induction t as [|y t IH]; intros s j H; [destruct j; discriminate|].
    destruct j as [|j]; simpl in *.
    - inversion H. rewrite Nat.add_0_r. reflexivity.
    - rewrite (IH (S s) j H). f_equal. f_equal. lia. }
  intros H. exact (G l 0%nat i H).
Qed.

Lemma enumerate_length {A : Type} (l : list A) : length (enumerate l) = length l.
Proof.
  unfold enumerate. rewrite length_combine, length_seq. apply Nat.min_id.
Qed.

(** ** Sorting *)

Section SortFacts.
Variable A : Type.
Variable le : A -> A -> bool.
Hypothesis le_total : forall a b, le a b = false -> le b a = true.
Hypothesis le_trans : forall a b c, le a b = true -> le b c = true -> le a c = true.

Let R (a b : A) : Prop := le a b = true.

Lemma insert_perm (x : A) (l : list A) : Permutation (insert le x l) (x :: l).
Proof.
  induction l as [|y t IH]; simpl; [apply Permutation_refl|].
  destruct (le x y); [apply Permutation_refl|].
  eapply perm_trans; [apply perm_skip; exact IH|apply perm_swap].
Qed.

Lemma sort_perm (l : list A) : Permutation (sort le l) l.
Proof.
  induction l as [|x t IH]; simpl; [constructor|].
  eapply perm_trans; [apply insert_perm|apply perm_skip; exact IH].
Qed.

Lemma sort_length (l : list A) : length (sort le l) = length l.
Proof.
  apply Permutation_length, sort_perm.
Qed.

Lemma insert_hd (x y : A) (l : list A) :
  R y x -> HdRel R y l -> HdRel R y (insert le x l).
Proof.
  intros Hyx Hl. destruct l as [|z t]; simpl; [constructor; exact Hyx|].
  destruct (le x z); constructor; [exact Hyx|].
  inversion Hl; assumption.
Qed.

Lemma insert_sorted (x : A) (l : list A) : Sorted R l -> Sorted R (insert le x l).
Proof.
  induction 1 as [|y t Ht IH Hhd]; simpl; [repeat constructor|].
  destruct (le x y) eqn:E.
  - constructor; [constructor; assumption|constructor; exact E].
  - constructor; [exact IH|]. apply insert_hd; [|exact Hhd].
    apply le_total. exact E.
Qed.

Lemma sort_sorted (l : list A) : Sorted R (sort le l).
Proof.
  induction l as [|x t IH]; simpl; [constructor|].
  apply insert_sorted. exact IH.
Qed.

Lemma sort_strongly_sorted (l : list A) : StronglySorted R (sort le l).
Proof.
  apply Sorted_StronglySorted; [|apply sort_sorted].
  intros a b c. apply le_trans.
Qed.

End SortFacts.

Lemma period_leb_le (a b : period) : period_leb a b = true <-> period_le a b.
Proof.
  unfold period_leb, period_le.
  rewrite orb_true_iff, andb_true_iff, Z.ltb_lt, Z.eqb_eq, Z.leb_le. reflexivity.
Qed.

Lemma period_leb_total (a b : period) : period_leb a b = false -> period_leb b a = true.
Proof.
  intros H. apply period_leb_le.
  destruct (period_leb b a) eqn:E; [apply period_leb_le; exact E|].
  unfold period_leb in *.
  rewrite orb_false_iff, andb_false_iff, Z.ltb_ge, Z.eqb_neq, Z.leb_gt in *.
  unfold period_le. lia.
Qed.

Lemma period_leb_trans (a b c : period) :
  period_leb a b = true -> period_leb b c = true -> period_leb a c = true.
Proof.
  rewrite !period_leb_le. unfold period_le. lia.
Qed.

Lemma period_le_antisym (a b : period) : period_le a b -> period_le b a -> a = b.
Proof.
  destruct a, b. unfold period_le. simpl. intros H1 H2. f_equal; lia.
Qed.

Lemma window3 {A : Type} (l : list A) (j : nat) (a b c : A) :
  nth_error l j = Some a -> nth_error l (S j) = Some b ->
  nth_error l (S (S j)) = Some c ->
  py_slice j (S (S j) + 1) l = [a; b; c].
Proof.
  unfold py_slice. replace (S (S j) + 1 - j)%nat with 3%nat by lia.
  revert l. induction j as [|j IH]; intros l Ha Hb Hc.
  - destruct l as [|x [|y [|z t]]]; simpl in *; try discriminate.
    inversion Ha; inversion Hb; inversion Hc; reflexivity.
  - destruct l as [|x t]; [discriminate|]. simpl in *. apply IH; assumption.
Qed.

Lemma nth_error_before {A : Type} (l : list A) (i j : nat) (x : A) :
  nth_error l i = Some x -> (j <= i)%nat -> exists y, nth_error l j = Some y.
Proof.
  intros Hi Hle. destruct (nth_error l j) as [y|] eqn:E; [exists y; reflexivity|].
  apply nth_error_None in E.
  assert (i < length l)%nat by (apply nth_error_Some; congruence). lia.
Qed.

(** The last item of a sorted list dominates every item. *)
Lemma StronglySorted_last_max {A : Type} (R : A -> A -> Prop) (l : list A) (x y : A) :
  StronglySorted R (l ++ [x]) -> In y l -> R y x.
Proof.
  induction l as [|z t IH]; intros Hs Hy; [contradiction|].
  simpl in Hs. inversion Hs as [|? ? Ht Hall]; subst.
  destruct Hy as [->|Hy].
  - rewrite Forall_forall in Hall. apply Hall. apply in_or_app. right. left. reflexivity.
  - apply IH; assumption.
Qed.

Lemma period_le_refl (a : period) : period_le a a.
Proof. unfold period_le. lia. Qed.

Lemma StronglySorted_weaken {A : Type} (R R' : A -> A -> Prop) (l : list A) :
  (forall a b, R a b -> R' a b) -> StronglySorted R l -> StronglySorted R' l.
Proof.
  intros HR. induction 1 as [|x t Ht IH Hall]; constructor; [exact IH|].
  eapply Forall_impl; [|exact Hall]. intros b. apply HR.
Qed.

(** ** Properties that hold in every number system *)

Section Generic.
Context {F : Type} {num : Num F}.

Lemma sort_asc_perm (l : list (UsagePoint.t F)) : Permutation (sort_asc l) l.
Proof. apply sort_perm. Qed.

Lemma sort_desc_perm (l : list (UsagePoint.t F)) : Permutation (sort_desc l) l.
Proof. apply sort_perm. Qed.

Lemma sort_asc_length (l : list (UsagePoint.t F)) : length (sort_asc l) = length l.
Proof. apply sort_length. Qed.

Lemma sort_asc_sorted (l : list (UsagePoint.t F)) : StronglySorted asc (sort_asc l).
Proof.
  eapply StronglySorted_weaken;
    [|apply (@sort_strongly_sorted _ (fun p q => period_leb (key p) (key q)))].
  - intros p q H. apply period_leb_le. exact H.
  - intros a b. apply period_leb_total.
  - intros a b c. apply period_leb_trans.
Qed.

Lemma sort_desc_sorted (l : list (UsagePoint.t F)) : StronglySorted desc (sort_desc l).
Proof.
  eapply StronglySorted_weaken;
    [|apply (@sort_strongly_sorted _ (fun p q => period_leb (key q) (key p)))].
  - intros p q H. apply period_leb_le. exact H.
  - intros a b. apply period_leb_total.
  - intros a b c H1 H2. exact (period_leb_trans _ _ _ H2 H1).
Qed.

Lemma sort_asc_nonempty (p : UsagePoint.t F) (l : list (UsagePoint.t F)) :
  sort_asc (p :: l) <> [].
Proof.
  intros E. apply (f_equal (@length _)) in E.
  rewrite sort_asc_length in E. discriminate.
Qed.

Lemma get_usage_points_length (bills : list (BillRead.t F)) :
  length (get_usage_points bills) = length bills.
Proof. apply length_map. Qed.

Lemma truediv_int_ok (a : F) (n : Z) :
  n <> 0 -> truediv_int a n = Ok (fquot a (of_int n)).
Proof.
  intros Hn. unfold truediv_int. apply Z.eqb_neq in Hn. rewrite Hn. reflexivity.
Qed.

(** *** Trend analysis *)

Lemma trend_point_ok (pts : list (UsagePoint.t F)) (idx : nat) (p : UsagePoint.t F) :
  nth_error pts idx = Some p ->
  trend_point pts (map (@UsagePoint.kilowatt_hours F) pts) idx p
  = Ok (trend_of pts idx p).
Proof.
  intros Hp. unfold trend_point, trend_of.
  destruct idx as [|[|j]].
  - reflexivity.
  - destruct (@nth_error_before _ pts 1%nat 0%nat p Hp) as [q Hq]; [lia|].
    unfold py_index. replace (1 - 1)%nat with 0%nat by reflexivity.
    rewrite Hq. reflexivity.
  - destruct (@nth_error_before _ pts (S (S j)) (S j) p Hp) as [b Hb]; [lia|].
    destruct (@nth_error_before _ pts (S (S j)) j p Hp) as [a Ha]; [lia|].
    replace (0 <? S (S j))%nat with true by reflexivity.
    replace (2 <=? S (S j))%nat with true by reflexivity.
    replace (S (S j) - 1)%nat with (S j) by lia.
    replace (S (S j) - 2)%nat with j by lia.
    unfold py_index. rewrite Hb, Ha. simpl bind.
    change (S (S (j + 1))) with (S (S j) + 1)%nat.
    rewrite (@window3 _ (map (@UsagePoint.kilowatt_hours F) pts) j
               (UsagePoint.kilowatt_hours a) (UsagePoint.kilowatt_hours b)
               (UsagePoint.kilowatt_hours p)).
    + reflexivity.
    + rewrite nth_error_map, Ha. reflexivity.
    + rewrite nth_error_map, Hb. reflexivity.
    + rewrite nth_error_map, Hp. reflexivity.
Qed.

Lemma analyze_trends_eq (bills : list (BillRead.t F)) :
  let pts := sort_asc (get_usage_points bills) in
  analyze_trends bills
  = Ok (map (fun ip => trend_of pts (fst ip) (snd ip)) (enumerate pts)).
Proof.
  intros pts. unfold analyze_trends. fold pts.
  apply mapM_pure. intros [i p] Hin. simpl.
  apply trend_point_ok. apply enumerate_In. exact Hin.
Qed.

(** *** Forecast *)

Lemma assign_periods_values (y m : Z) (preds : list F) :
  map (@PredictionPoint.predicted_kwh F) (assign_periods y m preds) = map max0 preds.
Proof.
  revert y m. induction preds as [|v t IH]; intros y m; simpl; [reflexivity|].
  rewrite IH. reflexivity.
Qed.

(** The regression never raises and yields one value per horizon step. *)
Lemma _linear_regression_predict_ok (ys : list F) (h : Z) :
  exists preds, _linear_regression_predict ys h = Ok preds
                /\ length preds = Z.to_nat h.
Proof.
  unfold _linear_regression_predict.
  destruct (Z.of_nat (length ys) =? 0) eqn:En.
  - eexists. split; [reflexivity|].
    rewrite length_map, range_length. f_equal. lia.
  - apply Z.eqb_neq in En. rewrite !truediv_int_ok by exact En.
    cbv beta iota zeta delta [bind].
    match goal with |- context [feqb ?x (of_int 0)] => destruct (feqb x (of_int 0)) eqn:Ex end.
    + destruct ys as [|y t]; [exfalso; apply En; reflexivity|].
      destruct (py_last_cons_ok y t) as [z [Hz _]]. rewrite Hz.
      eexists. split; [reflexivity|].
      rewrite length_map, range_length. f_equal. lia.
    + unfold truediv. rewrite Ex.
      eexists. split; [reflexivity|].
      rewrite length_map, range_length. f_equal. lia.
Qed.

Lemma key_project (b : BillRead.t F) : key (project b) = bill_key b.
Proof. reflexivity. Qed.

Lemma last_sorted_latest (bills : list (BillRead.t F)) (yp : period) :
  latest_period bills yp ->
  exists p, py_last (sort_asc (get_usage_points bills)) = Ok p /\ key p = yp.
Proof.
  intros [[b0 [Hb0 Hk0]] Hmax].
  set (s := sort_asc (get_usage_points bills)).
  assert (Hperm : Permutation s (get_usage_points bills)) by apply sort_asc_perm.
  assert (Hsorted : StronglySorted asc s) by apply sort_asc_sorted.
  assert (Hin0 : In (project b0) s).
  { apply (Permutation_in _ (Permutation_sym Hperm)). apply in_map. exact Hb0. }
  destruct (exists_last (l := s)) as [front [p Hs]].
  { intros E. rewrite E in Hin0. contradiction. }
  exists p. rewrite Hs, py_last_app. split; [reflexivity|].
  apply period_le_antisym.
  - assert (Hp : In p (get_usage_points bills)).
    { apply (Permutation_in _ Hperm). rewrite Hs. apply in_or_app. right. left. reflexivity. }
    apply in_map_iff in Hp. destruct Hp as [b [<- Hb]].
    rewrite key_project. apply Hmax. exact Hb.
  - rewrite <- Hk0, <- key_project. rewrite Hs in Hin0, Hsorted.
    apply in_app_or in Hin0. destruct Hin0 as [Hin0|[<-|[]]].
    + exact (@StronglySorted_last_max _ asc front p (project b0) Hsorted Hin0).
    + apply period_le_refl.
Qed.

Lemma predict_usage_ok (bills : list (BillRead.t F)) (h : Z) :
  exists preds start,
    _linear_regression_predict
      (map (@UsagePoint.kilowatt_hours F) (sort_asc (get_usage_points bills))) h
    = Ok preds
    /\ length preds = Z.to_nat h
    /\ match bills with
       | [] => start = (2000, 1)
       | _ :: _ => exists p, py_last (sort_asc (get_usage_points bills)) = Ok p
                             /\ start = key p
       end
    /\ predict_usage bills h
       = Ok (PredictionResult.mk h (assign_periods (fst start) (snd start) preds)).
Proof.
  destruct (_linear_regression_predict_ok
              (map (@UsagePoint.kilowatt_hours F) (sort_asc (get_usage_points bills))) h)
    as [preds [Hp Hlen]].
  unfold predict_usage. rewrite Hp. cbv beta iota zeta delta [bind].
  destruct bills as [|b t].
  - exists preds, (2000, 1). repeat split; assumption.
  - destruct (sort_asc (get_usage_points (b :: t))) as [|q s] eqn:Es.
    { exfalso. exact (sort_asc_nonempty (project b) (get_usage_points t) Es). }
    destruct (py_last_cons_ok q s) as [p [Hl _]]. rewrite Hl.
    exists preds, (key p). repeat split; try assumption.
    exists p. split; reflexivity.
Qed.

(** *** Advice *)

Lemma guarded_truediv_ok (a b : F) :
  (if fltb (of_int 0) b then truediv a b else Ok (of_int 0))
  = Ok (if fltb (of_int 0) b then fquot a b else of_int 0).
Proof.
  destruct (fltb (of_int 0) b) eqn:E; [|reflexivity].
  unfold truediv. rewrite (pos_nonzero b E). reflexivity.
Qed.

Lemma py_suffix_rev3 {A : Type} (l r : list A) (hi mid lo : A) :
  rev l = hi :: mid :: lo :: r -> py_suffix 3 l = [lo; mid; hi].
Proof.
  intros Hr. apply (f_equal (@rev A)) in Hr. rewrite rev_involutive in Hr.
  simpl in Hr. rewrite <- !app_assoc in Hr. simpl in Hr. subst l.
  unfold py_suffix. rewrite length_app. simpl length.
  replace (length (rev r) + 3 - 3)%nat with (length (rev r) + 0)%nat by lia.
  rewrite skipn_app, Nat.add_0_r, skipn_all.
  replace (length (rev r) - length (rev r))%nat with 0%nat by lia.
  reflexivity.
Qed.

Lemma generate_advice_eq (bills : list (BillRead.t F)) :
  bills <> [] ->
  let pts := get_usage_points bills in
  generate_advice bills
  = Ok (pick (high_cost_cond pts) tip_high_cost ++ pick (rising_cond pts) tip_rising
        ++ pick (carbon_cond pts) tip_carbon ++ [tip_quick_wins]).
Proof.
  intros Hne pts. unfold generate_advice. fold pts.
  assert (Hlen : length (sort_asc pts) = length pts) by apply sort_asc_length.
  destruct pts as [|p0 pts0] eqn:Epts.
  { destruct bills; [contradiction|discriminate]. }
  rewrite <- Epts in *. clear Epts.
  unfold high_cost_cond, rising_cond, carbon_cond, avg_emission_factor, cost_per_kwh.
  assert (Hrev : length (rev (sort_asc pts)) = length pts)
    by (rewrite length_rev; exact Hlen).
  unfold py_last.
  destruct (rev (sort_asc pts)) as [|hi r] eqn:Er.
  { exfalso. rewrite <- Hlen in Hrev.
    apply (f_equal (@rev _)) in Er. rewrite rev_involutive in Er.
    rewrite Er in Hlen. simpl in Hlen.
    destruct bills; [contradiction|]. subst pts. discriminate. }
  cbv beta iota zeta delta [bind]. rewrite !guarded_truediv_ok.
  cbv beta iota zeta delta [bind].
  destruct (3 <=? length pts)%nat eqn:E3.
  - apply Nat.leb_le in E3.
    destruct r as [|mid [|lo r']]; simpl in Hrev; try lia.
    rewrite (py_suffix_rev3 _ Er). unfold py_index. simpl nth_error.
    cbv beta iota zeta delta [bind].
    destruct (fltb lit_0_15 _), (fltb (UsagePoint.kilowatt_hours lo) _), (fleb lit_0_6 _);
      reflexivity.
  - apply Nat.leb_gt in E3.
    destruct r as [|mid [|lo r']]; simpl in Hrev; try lia;
      destruct (fltb lit_0_15 _), (fleb lit_0_6 _); reflexivity.
Qed.

Lemma In_pick (c : bool) (t u : AdviceItem.t) : In u (pick c t) <-> c = true /\ u = t.
Proof.
  destruct c; simpl; split; intros H.
  - destruct H as [<-|[]]. split; reflexivity.
  - left. symmetry. apply H.
  - contradiction.
  - destruct H; discriminate.
Qed.

End Generic.

(** ** Exact arithmetic: sums, squares and the regression *)

Section Exact.
Local Open Scope Qc_scope.

Lemma Qc_of_int_0 : Qc_of_int 0 = 0.
Proof. reflexivity. Qed.

Lemma Qc_of_int_add (a b : Z) : Qc_of_int (a + b) = Qc_of_int a + Qc_of_int b.
Proof.
  apply Qc_is_canon. unfold Qc_of_int, Qcplus, Q2Qc; cbn [this].
  rewrite !Qred_correct, inject_Z_plus. reflexivity.
Qed.

Lemma Qc_of_int_inj (a b : Z) : Qc_of_int a = Qc_of_int b -> a = b.
Proof.
  intros H. apply Q2Qc_eq_iff in H. unfold Qeq in H. simpl in H. lia.
Qed.

Lemma Qc_of_int_nonzero (n : Z) : n <> 0%Z -> Qc_of_int n <> 0.
Proof.
  intros Hn H. apply Hn. apply Qc_of_int_inj. exact H.
Qed.

Lemma fold_left_sigma (l : list Qc) (a : Qc) : fold_left Qcplus l a = a + sigma l.
Proof.
  revert a. induction l as [|x t IH]; intros a; simpl; [ring|].
  rewrite IH. ring.
Qed.

Lemma fsum_sigma (l : list Qc) : fsum l = sigma l.
Proof.
  unfold fsum. simpl fadd. rewrite fold_left_sigma. simpl of_int.
  rewrite Qc_of_int_0. ring.
Qed.

Lemma zsum_sigma (l : list Z) : Qc_of_int (zsum l) = sigma (map Qc_of_int l).
Proof.
  unfold zsum.
  assert (G : forall a, Qc_of_int (fold_left Z.add l a)
                        = Qc_of_int a + sigma (map Qc_of_int l)).
  { induction l as [|x t IH]; intros a; simpl; [ring|].
    rewrite IH, Qc_of_int_add. ring. }
  rewrite G, Qc_of_int_0. ring.
Qed.

Lemma xs_of_range (n : nat) : map Qc_of_int (range 1 (Z.of_nat n + 1)) = xs_of n.
Proof.
  unfold range, xs_of. replace (Z.to_nat (Z.of_nat n + 1 - 1)) with n by lia.
  rewrite <- seq_shift, !map_map. apply map_ext. intros i. f_equal. lia.
Qed.

Lemma xs_of_length (n : nat) : length (xs_of n) = n.
Proof. unfold xs_of. rewrite length_map, length_seq. reflexivity. Qed.

Lemma sigma_repeat (k : Qc) (n : nat) :
  sigma (repeat k n) = Qc_of_int (Z.of_nat n) * k.
Proof.
  induction n as [|n IH]; [simpl; rewrite Qc_of_int_0; ring|].
  simpl sigma. rewrite IH. rewrite Nat2Z.inj_succ, <- Z.add_1_l, Qc_of_int_add.
  replace (Qc_of_int 1) with 1 by reflexivity. ring.
Qed.

Lemma Qc_square_nonneg (a : Qc) : 0 <= a ^ 2.
Proof.
  replace (a ^ 2) with (a * a) by (simpl; ring).
  destruct a as [q Hq]. unfold Qcle, Qcmult, Q2Qc; cbn [this].
  rewrite !Qred_correct. nra.
Qed.

Lemma Qc_square_pos (a : Qc) : a <> 0 -> 0 < a ^ 2.
Proof.
  intros Ha. destruct (Qcle_lt_or_eq _ _ (Qc_square_nonneg a)) as [H|H]; [exact H|].
  exfalso. simpl in H. symmetry in H.
  apply Qcmult_integral in H. destruct H as [H|H]; [exact (Ha H)|].
  rewrite Qcmult_1_r in H. exact (Ha H).
Qed.

Lemma Qc_add_pos_nonneg (a b : Qc) : 0 < a -> 0 <= b -> 0 < a + b.
Proof.
  intros Ha Hb. apply Qclt_le_trans with (a + 0).
  - rewrite Qcplus_0_r. exact Ha.
  - apply Qcplus_le_compat; [apply Qcle_refl|exact Hb].
Qed.

Lemma Qc_add_nonneg (a b : Qc) : 0 <= a -> 0 <= b -> 0 <= a + b.
Proof.
  intros Ha Hb. rewrite <- (Qcplus_0_r 0). apply Qcplus_le_compat; assumption.
Qed.

Lemma sigma_nonneg (l : list Qc) : Forall (fun t => 0 <= t) l -> 0 <= sigma l.
Proof.
  induction 1 as [|x t Hx Ht IH]; simpl; [apply Qcle_refl|].
  apply Qc_add_nonneg; assumption.
Qed.

Lemma sigma_pos (l : list Qc) (x : Qc) :
  Forall (fun t => 0 <= t) l -> In x l -> 0 < x -> 0 < sigma l.
Proof.
  induction 1 as [|y t Hy Ht IH]; intros Hin Hx; [contradiction|].
  simpl. destruct Hin as [->|Hin].
  - apply Qc_add_pos_nonneg; [exact Hx|apply sigma_nonneg; exact Ht].
  - rewrite Qcplus_comm. apply Qc_add_pos_nonneg; [apply IH; assumption|exact Hy].
Qed.

(** With two or more points the squared deviations of the index do not vanish. *)
Lemma ss_xx_pos (m : Qc) (n : nat) :
  (2 <= n)%nat -> 0 < sigma (map (fun x => (x - m) ^ 2) (xs_of n)).
Proof.
  intros Hn.
  assert (Hall : Forall (fun t => 0 <= t) (map (fun x => (x - m) ^ 2) (xs_of n))).
  { apply Forall_forall. intros t Ht. apply in_map_iff in Ht.
    destruct Ht as [x [<- _]]. apply Qc_square_nonneg. }
  assert (Hin : forall i, (1 <= i <= n)%nat ->
                          In ((Qc_of_int (Z.of_nat i) - m) ^ 2)
                             (map (fun x => (x - m) ^ 2) (xs_of n))).
  { intros i Hi. apply in_map_iff. exists (Qc_of_int (Z.of_nat i)).
    split; [reflexivity|]. unfold xs_of. apply in_map_iff. exists i.
    split; [reflexivity|]. apply in_seq. lia. }
  destruct (Qc_eq_dec (Qc_of_int (Z.of_nat 1) - m) 0) as [E1|N1].
  - apply (sigma_pos Hall (Hin 2%nat ltac:(lia))). apply Qc_square_pos.
    intros E2. assert (E : Qc_of_int (Z.of_nat 1) = Qc_of_int (Z.of_nat 2)).
    { transitivity m.
      - rewrite <- (Qcplus_0_l m), <- E1. ring.
      - rewrite <- (Qcplus_0_l m), <- E2. ring. }
    apply Qc_of_int_inj in E. discriminate.
  - apply (sigma_pos Hall (Hin 1%nat ltac:(lia))). apply Qc_square_pos. exact N1.
Qed.

Lemma combine_map_l {A B C : Type} (f : A -> B) (l : list A) (l' : list C) :
  combine (map f l) l' = map (fun p => (f (fst p), snd p)) (combine l l').
Proof.
  revert l'. induction l as [|x t IH]; intros [|y t']; simpl; try reflexivity.
  rewrite IH. reflexivity.
Qed.

Lemma code_mean_x (n : nat) :
  fquot (of_int (zsum (range 1 (Z.of_nat n + 1)))) (of_int (Z.of_nat n))
  = mean (xs_of n).
Proof.
  unfold mean. rewrite xs_of_length. simpl fquot. simpl of_int.
  rewrite zsum_sigma, xs_of_range. reflexivity.
Qed.

Lemma code_mean_y (ys : list Qc) :
  fquot (fsum ys) (of_int (Z.of_nat (length ys))) = mean ys.
Proof.
  unfold mean. rewrite fsum_sigma. reflexivity.
Qed.

Lemma code_ss_xx (m : Qc) (n : nat) :
  fsum (map (fun x => let d := fsub (of_int x) m in fmul d d)
          (range 1 (Z.of_nat n + 1)))
  = sigma (map (fun x => (x - m) ^ 2) (xs_of n)).
Proof.
  rewrite fsum_sigma, <- xs_of_range, map_map. f_equal.
  apply map_ext. intros x. simpl. ring.
Qed.

Lemma code_ss_xy (mx my : Qc) (n : nat) (ys : list Qc) :
  fsum (map (fun xy => fmul (fsub (of_int (fst xy)) mx) (fsub (snd xy) my))
          (combine (range 1 (Z.of_nat n + 1)) ys))
  = sigma (map (fun xy => (fst xy - mx) * (snd xy - my)) (combine (xs_of n) ys)).
Proof.
  rewrite fsum_sigma, <- xs_of_range, combine_map_l, map_map. reflexivity.
Qed.

(** On two or more points the regression is the least-squares line. *)
Lemma _linear_regression_predict_ols (ys : list Qc) (h : Z) :
  (2 <= length ys)%nat ->
  _linear_regression_predict ys h = Ok (map (ols_forecast ys) (range 1 (h + 1))).
Proof.
  intros Hn. unfold _linear_regression_predict.
  assert (Hz : Z.of_nat (length ys) <> 0%Z) by lia.
  destruct (Z.eqb_spec (Z.of_nat (length ys)) 0) as [E|_]; [contradiction|].
  rewrite !truediv_int_ok by exact Hz.
  cbv beta iota zeta delta [bind].
  rewrite code_mean_x, code_mean_y, code_ss_xx, code_ss_xy.
  assert (Hpos := ss_xx_pos (mean (xs_of (length ys))) Hn).
  assert (Hne : sigma (map (fun x => (x - mean (xs_of (length ys))) ^ 2)
                         (xs_of (length ys))) <> 0).
  { intros E. rewrite E in Hpos. exact (Qclt_not_eq _ _ Hpos eq_refl). }
  replace (feqb _ (of_int 0)) with false
    by (symmetry; apply Qc_eq_bool_false; exact Hne).
  unfold truediv.
  replace (feqb _ (of_int 0)) with false
    by (symmetry; apply Qc_eq_bool_false; exact Hne).
  reflexivity.
Qed.

Lemma max0_Qc_max (v : Qc) : max0 v = Qc_max 0 v.
Proof.
  unfold max0, Qc_max. simpl fltb. simpl of_int. rewrite Qc_of_int_0.
  unfold Qc_ltb, Qc_leb.
  destruct (0 ?= v) eqn:E; try reflexivity.
  apply Qceq_alt in E. exact E.
Qed.

End Exact.

(** * The operations of the engine *)

(** ** [recent] *)

(** C9: for every bill list and every integer limit, [get_recent_usage]
    returns the first [max(0, limit)] items of the projected points sorted
    descending by [(year, month)]; a limit [<= 0] gives the empty list and
    nothing is raised (the operation is a total function). *)
Theorem C9_recent_prefix_of_descending :
  forall (F : Type) (num : Num F) (bills : list (BillRead.t F)) (limit : Z),
    exists sorted : list (UsagePoint.t F),
      Permutation sorted (map project bills)
      /\ StronglySorted desc sorted
      /\ get_recent_usage bills limit = firstn (Z.to_nat (Z.max 0 limit)) sorted
      /\ length (get_recent_usage bills limit)
         = Nat.min (Z.to_nat (Z.max 0 limit)) (length bills)
      /\ (limit <= 0 -> get_recent_usage bills limit = []).
Proof.
  intros F num bills limit.
  exists (sort_desc (get_usage_points bills)).
  split; [apply sort_desc_perm|].
  split; [apply sort_desc_sorted|].
  split; [reflexivity|].
  split.
  - unfold get_recent_usage, py_prefix. rewrite length_firstn.
    rewrite (Permutation_length (sort_desc_perm _)), get_usage_points_length.
    reflexivity.
  - intros Hle. unfold get_recent_usage, py_prefix.
    replace (Z.max 0 limit) with 0 by lia. reflexivity.
Qed.

(** ** [analyzeTrends] *)

(** C3: [analyze_trends] returns one trend point per input point, in
    ascending order of [(year, month)]; point 0 has no delta, points 0 and 1
    have no moving average; for [i > 0] the delta is the kWh of point [i] minus
    that of point [i-1], and for [i >= 2] the moving average is the sum of the
    kWh of points [i-2], [i-1], [i] divided by 3. *)
Theorem C3_trends_shape :
  forall (F : Type) (num : Num F) (bills : list (BillRead.t F)),
    let pts := sort_asc (get_usage_points bills) in
    Permutation pts (get_usage_points bills)
    /\ StronglySorted asc pts
    /\ exists tps : list (TrendPoint.t F),
         analyze_trends bills = Ok tps
         /\ length tps = length bills
         /\ StronglySorted (fun a b => period_le (trend_key a) (trend_key b)) tps
         /\ forall (i : nat) (p : UsagePoint.t F),
              nth_error pts i = Some p ->
              exists tp,
                nth_error tps i = Some tp
                /\ TrendPoint.year tp = UsagePoint.year p
                /\ TrendPoint.month tp = UsagePoint.month p
                /\ TrendPoint.kilowatt_hours tp = UsagePoint.kilowatt_hours p
                /\ TrendPoint.month_over_month_delta_kwh tp
                   = match i with
                     | O => None
                     | S j =>
                         option_map
                           (fun q => fsub (UsagePoint.kilowatt_hours p)
                                       (UsagePoint.kilowatt_hours q))
                           (nth_error pts j)
                     end
                /\ TrendPoint.moving_average_3mo_kwh tp
                   = match i with
                     | S (S j) =>
                         match nth_error pts j, nth_error pts (S j) with
                         | Some a, Some b =>
                             Some (fquot
                                     (fsum [UsagePoint.kilowatt_hours a;
                                            UsagePoint.kilowatt_hours b;
                                            UsagePoint.kilowatt_hours p])
                                     (of_int 3))
                         | _, _ => None
                         end
                     | _ => None
                     end
                /\ (forall j, i = S j -> nth_error pts j <> None)
                /\ (forall j, i = S (S j) ->
                              nth_error pts j <> None /\ nth_error pts (S j) <> None).
Proof.
  intros F num bills pts.
  split; [apply sort_asc_perm|].
  split; [apply sort_asc_sorted|].
  exists (map (fun ip => trend_of pts (fst ip) (snd ip)) (enumerate pts)).
  split; [apply analyze_trends_eq|].
  split.
  { rewrite length_map, enumerate_length. unfold pts.
    rewrite sort_asc_length. apply get_usage_points_length. }
  split.
  { assert (Hs : StronglySorted asc pts) by apply sort_asc_sorted.
    unfold enumerate. generalize 0%nat as s. generalize pts at 1 as all.
    induction Hs as [|p t Ht IH Hall]; intros all s; simpl; constructor.
    - apply IH.
    - apply Forall_forall. intros tp Htp. apply in_map_iff in Htp.
      destruct Htp as [[i q] [<- Hq]]. apply in_combine_r in Hq.
      rewrite Forall_forall in Hall. exact (Hall q Hq). }
  intros i p Hp.
  exists (trend_of pts i p).
  split.
  { rewrite nth_error_map, (enumerate_nth pts i Hp). reflexivity. }
  repeat split; try reflexivity.
  - intros j -> E.
    destruct (@nth_error_before _ pts (S j) j p Hp) as [q Hq]; [lia|]. congruence.
  - subst i.
    destruct (@nth_error_before _ pts (S (S j)) j p Hp) as [q Hq]; [lia|]. congruence.
  - subst i.
    destruct (@nth_error_before _ pts (S (S j)) (S j) p Hp) as [q Hq]; [lia|]. congruence.
Qed.

(** ** [predict] *)

(** C1, as the code has it: with no bills and horizon 3, [predict_usage]
    returns three predictions of [0.0] for the periods 2000-02, 2000-03 and
    2000-04: the first one is one month after the seed 2000-01. *)
Theorem C1_predict_empty_horizon_3 :
  forall (F : Type) (num : Num F),
    predict_usage (@nil (BillRead.t F)) 3
    = Ok (PredictionResult.mk 3
            [PredictionPoint.mk 2000 2 (of_int 0);
             PredictionPoint.mk 2000 3 (of_int 0);
             PredictionPoint.mk 2000 4 (of_int 0)]).
Proof.
  intros F num. unfold predict_usage. simpl. unfold max0.
  destruct (fltb (of_int 0) (of_int 0)); reflexivity.
Qed.

(** C1, as the specification words it, fails on binary64: the first of the
    three predictions is not for the period 2001-01. *)
Lemma C1_first_period_2001_01_refuted :
  ~ (exists r p rest,
       predict_usage (@nil (BillRead.t PrimFloat.float)) 3 = Ok r
       /\ length (PredictionResult.predictions r) = 3%nat
       /\ Forall (fun q => PredictionPoint.predicted_kwh q = of_int 0)
            (PredictionResult.predictions r)
       /\ PredictionResult.predictions r = p :: rest
       /\ PredictionPoint.year p = 2001
       /\ PredictionPoint.month p = 1).
Proof.
  intros [r [p [rest [Hr [_ [_ [Hp [Hy _]]]]]]]].
  vm_compute in Hr. inversion Hr; subst r.
  simpl in Hp. inversion Hp; subst p.
  simpl in Hy. discriminate.
Qed.

(** C8: when the chronologically latest period of the bills is [(y, 12)],
    [predict_usage] with horizon 1 returns exactly one prediction, for the
    period [(y + 1, 1)]. *)
Theorem C8_december_rolls_over :
  forall (F : Type) (num : Num F) (bills : list (BillRead.t F)) (y : Z),
    latest_period bills (y, 12) ->
    exists v : F,
      predict_usage bills 1
      = Ok (PredictionResult.mk 1 [PredictionPoint.mk (y + 1) 1 v]).
Proof.
  intros F num bills y Hlatest.
  destruct (predict_usage_ok bills 1) as [preds [start [_ [Hlen [Hstart Hr]]]]].
  destruct (last_sorted_latest Hlatest) as [p [Hp Hk]].
  assert (Hs : start = (y, 12)).
  { destruct bills as [|b t].
    - destruct Hlatest as [[b [[] _]] _].
    - destruct Hstart as [q [Hq ->]]. rewrite Hp in Hq. inversion Hq; subst q.
      exact Hk. }
  subst start.
  destruct preds as [|v [|w rest]]; try discriminate.
  exists (max0 v). rewrite Hr. reflexivity.
Qed.

(** C8 at the bills 2023-11 and 2023-12 on binary64: the forecast is for 2024-01. *)
Lemma C8_december_rolls_over_witness :
  latest_period
    [BillRead.mk 2 2023 12 (Binary64.float_of_int 100) (Binary64.float_of_int 20)
       Binary64.float_0_6;
     BillRead.mk 1 2023 11 (Binary64.float_of_int 150) (Binary64.float_of_int 30)
       Binary64.float_0_6]
    (2023, 12)
  /\ exists v : PrimFloat.float,
       predict_usage
         [BillRead.mk 2 2023 12 (Binary64.float_of_int 100) (Binary64.float_of_int 20)
            Binary64.float_0_6;
          BillRead.mk 1 2023 11 (Binary64.float_of_int 150) (Binary64.float_of_int 30)
            Binary64.float_0_6]
         1
       = Ok (PredictionResult.mk 1 [PredictionPoint.mk (2023 + 1) 1 v]).
Proof.
  assert (H : latest_period
    [BillRead.mk 2 2023 12 (Binary64.float_of_int 100) (Binary64.float_of_int 20)
       Binary64.float_0_6;
     BillRead.mk 1 2023 11 (Binary64.float_of_int 150) (Binary64.float_of_int 30)
       Binary64.float_0_6]
    (2023, 12)).
  { split.
    - eexists. split; [left; reflexivity|reflexivity].
    - intros b [<-|[<-|[]]]; unfold period_le, bill_key; simpl; lia. }
  split; [exact H|].
  exact (@C8_december_rolls_over _ _ _ 2023 H).
Defined.

(** ** [advise] *)

Lemma rising_cond_iff (F : Type) (num : Num F) (pts : list (UsagePoint.t F)) :
  rising_cond pts = true
  <-> exists front lo mid hi,
        sort_asc pts = front ++ [lo; mid; hi]
        /\ fltb (UsagePoint.kilowatt_hours lo) (UsagePoint.kilowatt_hours hi) = true.
Proof.
  unfold rising_cond. split.
  - destruct (rev (sort_asc pts)) as [|hi [|mid [|lo r]]] eqn:Er; try discriminate.
    intros H. exists (rev r), lo, mid, hi. split; [|exact H].
    apply (f_equal (@rev _)) in Er. rewrite rev_involutive in Er.
    rewrite Er. simpl. rewrite <- !app_assoc. reflexivity.
  - intros [front [lo [mid [hi [Hs H]]]]].
    rewrite Hs, rev_app_distr. simpl. exact H.
Qed.


(** C10: [generate_advice] never raises and returns between one and four
    tips: for no bills exactly the add-data tip, otherwise the quick-wins tip
    last, preceded by those of the high-cost, rising-usage and carbon tips
    whose rule fired, in that order. *)
Theorem C10_advice_shape :
  forall (F : Type) (num : Num F) (bills : list (BillRead.t F)),
    exists tips : list AdviceItem.t,
      generate_advice bills = Ok tips
      /\ (1 <= length tips <= 4)%nat
      /\ match bills with
         | [] => tips = [tip_add_data]
         | _ :: _ =>
             exists high rising carbon : bool,
               tips = pick high tip_high_cost ++ pick rising tip_rising
                      ++ pick carbon tip_carbon ++ [tip_quick_wins]
               /\ last tips tip_add_data = tip_quick_wins
         end.
Proof.
  intros F num bills. destruct bills as [|b t].
  - exists [tip_add_data]. split; [reflexivity|]. split; [simpl; lia|reflexivity].
  - eexists. split; [apply generate_advice_eq; discriminate|].
    set (pts := get_usage_points (b :: t)).
    destruct (high_cost_cond pts), (rising_cond pts), (carbon_cond pts);
      (split; [simpl; lia|]);
      [exists true, true, true|exists true, true, false|exists true, false, true
      |exists true, false, false|exists false, true, true|exists false, true, false
      |exists false, false, true|exists false, false, false];
      split; reflexivity.
Qed.

Lemma advice_single (F : Type) (num : Num F) (b : BillRead.t F) :
  high_cost_cond [project b] = true ->
  carbon_cond [project b] = true ->
  generate_advice [b] = Ok [tip_high_cost; tip_carbon; tip_quick_wins].
Proof.
  intros Hh Hc. rewrite generate_advice_eq by discriminate.
  change (get_usage_points [b]) with [project b]. rewrite Hh, Hc. reflexivity.
Qed.

(** C4: on no bills [generate_advice] returns the add-data tip alone; on a
    single bill with [cost = 20], [kwh = 100] (0.2 per kWh, above 0.15) whose
    average emission factor is at least 0.6 it returns exactly the high-cost,
    carbon-intensity and quick-wins tips, in this order, on binary64 and on
    the rationals. *)
Theorem C4_advice_empty_and_single :
  (forall (F : Type) (num : Num F),
      generate_advice (@nil (BillRead.t F)) = Ok [tip_add_data])
  /\ single_point_advice Binary64.Num_float
  /\ single_point_advice Num_Qc.
Proof.
  split; [reflexivity|]. split.
  - intros id y m factor b Havg. apply advice_single; [|exact Havg].
    vm_compute. reflexivity.
  - intros id y m factor b Havg. apply advice_single; [|exact Havg].
    vm_compute. reflexivity.
Qed.

(** C4 at the bill 2023-05 with the default factor 0.7, on binary64. *)
Lemma C4_advice_empty_and_single_witness :
  fleb lit_0_6
    (avg_emission_factor
       (get_usage_points
          [BillRead.mk 1 2023 5 (Binary64.float_of_int 100) (Binary64.float_of_int 20)
             (PrimFloat.div (Binary64.float_of_int 7) (Binary64.float_of_int 10))]))
  = true
  /\ generate_advice
       [BillRead.mk 1 2023 5 (Binary64.float_of_int 100) (Binary64.float_of_int 20)
          (PrimFloat.div (Binary64.float_of_int 7) (Binary64.float_of_int 10))]
     = Ok [tip_high_cost; tip_carbon; tip_quick_wins].
Proof.
  split; [vm_compute; reflexivity|].
  apply (proj1 (proj2 C4_advice_empty_and_single) 1 2023 5).
  vm_compute. reflexivity.
Defined.

(** ** [summarize] *)

Lemma build_summary_eq (F : Type) (num : Num F) (bills : list (BillRead.t F)) :
  bills <> [] ->
  let pts := get_usage_points bills in
  let n := Z.of_nat (length bills) in
  let total_kwh := fsum (map (@UsagePoint.kilowatt_hours F) pts) in
  let total_cost := fsum (map (@UsagePoint.cost F) pts) in
  let total_emissions := fsum (map (@UsagePoint.emissions_kg F) pts) in
  build_summary bills
  = Ok (UsageSummary.mk total_kwh total_cost total_emissions
          (fquot total_kwh (of_int n)) (fquot total_cost (of_int n))
          (fquot total_emissions (of_int n))).
Proof.
  intros Hne. destruct bills as [|b t]; [contradiction|].
  cbv zeta. unfold build_summary.
  change (get_usage_points (b :: t)) with (project b :: get_usage_points t).
  cbv beta iota zeta.
  change (project b :: get_usage_points t) with (get_usage_points (b :: t)).
  rewrite get_usage_points_length.
  rewrite !truediv_int_ok by (simpl length; lia).
  reflexivity.
Qed.



(** ** [predict], one point and many points *)

Lemma map_const_range {A : Type} (k : A) (h : Z) :
  map (fun _ => k) (range 0 h) = repeat k (Z.to_nat h).
Proof.
  unfold range. rewrite map_map, Z.sub_0_r.
  generalize 0%nat as s. induction (Z.to_nat h) as [|n IH]; intros s; simpl;
    [reflexivity|].
  rewrite IH. reflexivity.
Qed.

Lemma predict_single_flat (F : Type) (num : Num F) (b : BillRead.t F) (h : Z) :
  feqb (ss_xx_single num) (of_int 0) = true ->
  predict_usage [b] h
  = Ok (PredictionResult.mk h
          (assign_periods (BillRead.year b) (BillRead.month b)
             (repeat (BillRead.kilowatt_hours b) (Z.to_nat h)))).
Proof.
  intros Hflat. unfold predict_usage.
  change (sort_asc (get_usage_points [b])) with [project b].
  unfold _linear_regression_predict.
  change (Z.of_nat (length (map (@UsagePoint.kilowatt_hours F) [project b]))) with 1.
  change (1 =? 0) with false. cbv beta iota.
  rewrite !truediv_int_ok by discriminate.
  cbv beta iota zeta delta [bind].
  change (feqb _ (of_int 0)) with (feqb (ss_xx_single num) (of_int 0)).
  rewrite Hflat. cbv beta iota zeta delta [bind].
  change (py_last (map (@UsagePoint.kilowatt_hours F) [project b]))
    with (Ok (BillRead.kilowatt_hours b)).
  change (py_last [project b]) with (Ok (project b)).
  cbv beta iota. rewrite map_const_range. reflexivity.
Qed.

Lemma max0_pos (F : Type) (num : Num F) (v : F) :
  fltb (of_int 0) v = true -> max0 v = v.
Proof. intros H. unfold max0. rewrite H. reflexivity. Qed.

Lemma single_record_flat_of (F : Type) (num : Num F) :
  feqb (ss_xx_single num) (of_int 0) = true -> single_record_flat num.
Proof.
  intros Hflat b h Hpos. eexists. split; [apply predict_single_flat; exact Hflat|].
  split; [reflexivity|]. cbn [PredictionResult.predictions].
  rewrite assign_periods_values, map_repeat, (@max0_pos _ _ _ Hpos). reflexivity.
Qed.

(** C6: with exactly one bill, whose kWh is positive as the schema requires,
    [predict_usage] returns that kWh unchanged at every horizon step, on
    binary64 and on the rationals; the bill (2023, 5, 100 kWh) with horizon 2
    gives 100.0 for 2023-06 and 100.0 for 2023-07. *)
Theorem C6_single_record_flat :
  single_record_flat Binary64.Num_float
  /\ single_record_flat Num_Qc
  /\ forall (id : Z) (cost factor : PrimFloat.float),
       predict_usage [BillRead.mk id 2023 5 (Binary64.float_of_int 100) cost factor] 2
       = Ok (PredictionResult.mk 2
               [PredictionPoint.mk 2023 6 (Binary64.float_of_int 100);
                PredictionPoint.mk 2023 7 (Binary64.float_of_int 100)]).
Proof.
  split; [|split].
  - apply single_record_flat_of. vm_compute. reflexivity.
  - apply single_record_flat_of. vm_compute. reflexivity.
  - intros id cost factor. vm_compute. reflexivity.
Qed.

(** C6 at the bill (2023, 5, 100 kWh) and horizon 2, on binary64. *)
Lemma C6_single_record_flat_witness :
  fltb (of_int 0) (Binary64.float_of_int 100) = true
  /\ exists r,
       predict_usage
         [BillRead.mk 1 2023 5 (Binary64.float_of_int 100) (Binary64.float_of_int 20)
            Binary64.float_0_6]
         2
       = Ok r
       /\ PredictionResult.horizon_months r = 2
       /\ map (@PredictionPoint.predicted_kwh PrimFloat.float)
            (PredictionResult.predictions r)
          = repeat (Binary64.float_of_int 100) (Z.to_nat 2).
Proof.
  split; [vm_compute; reflexivity|].
  apply (proj1 C6_single_record_flat
           (BillRead.mk 1 2023 5 (Binary64.float_of_int 100) (Binary64.float_of_int 20)
              Binary64.float_0_6) 2).
  vm_compute. reflexivity.
Defined.



(** ** The theorems at sample bills *)

(** C9 at the bills of 2023 and limit -1: nothing is returned. *)
Lemma C9_recent_prefix_of_descending_witness :
  -1 <= 0 /\ get_recent_usage bills_2023 (-1) = [].
Proof.
  split; [lia|].
  destruct (@C9_recent_prefix_of_descending _ _ bills_2023 (-1))
    as [sorted [_ [_ [_ [_ H]]]]].
  apply H. lia.
Defined.


(** C3 at the bills of 2023: the third trend point is March, 30 kWh above
    February, with the moving average (90 + 120 + 150) / 3. *)
Lemma C3_trends_shape_witness :
  nth_error (sort_asc (get_usage_points bills_2023)) 2 = Some (project (bill_f 3 2023 3 150 40))
  /\ exists tps tp,
       analyze_trends bills_2023 = Ok tps
       /\ nth_error tps 2 = Some tp
       /\ TrendPoint.month tp = 3
       /\ TrendPoint.month_over_month_delta_kwh tp = Some (Binary64.float_of_int 30)
       /\ TrendPoint.moving_average_3mo_kwh tp = Some (Binary64.float_of_int 120).
Proof.
  assert (Hp : nth_error (sort_asc (get_usage_points bills_2023)) 2
               = Some (project (bill_f 3 2023 3 150 40)))
    by (vm_compute; reflexivity).
  split; [exact Hp|].
  destruct (@C3_trends_shape _ _ bills_2023) as [_ [_ [tps [Ht [_ [_ Hi]]]]]].
  destruct (Hi 2%nat _ Hp) as [tp [Hn [_ [Hm [_ [Hd [Ha _]]]]]]].
  exists tps, tp. split; [exact Ht|]. split; [exact Hn|].
  split; [rewrite Hm; reflexivity|].
  split; [rewrite Hd|rewrite Ha]; vm_compute; reflexivity.
Defined.

(** The engine on the bills of 2023, evaluated on binary64. *)
Example advice_2023 :
  generate_advice bills_2023
  = Ok [tip_high_cost; tip_rising; tip_carbon; tip_quick_wins].
Proof. vm_compute. reflexivity. Qed.

Example recent_2023 :
  get_recent_usage bills_2023 2
  = [project (bill_f 3 2023 3 150 40); project (bill_f 2 2023 2 120 30)].
Proof. vm_compute. reflexivity. Qed.

Example predict_2023 :
  predict_usage bills_2023 2
  = Ok (PredictionResult.mk 2
          [PredictionPoint.mk 2023 4 (Binary64.float_of_int 180);
           PredictionPoint.mk 2023 5 (Binary64.float_of_int 210)]).
Proof. vm_compute. reflexivity. Qed.

(** * Further properties of the code *)

(** ** Stable sorting, continued *)

Section SortStable.
Variable A : Type.
Variable le : A -> A -> bool.

(** Items that the order does not separate keep their places: the sort is
    stable. *)
Lemma insert_filter (p : A -> bool) (x : A) (l : list A) :
  (forall a b, p a = true -> p b = true -> le a b = true) ->
  filter p (insert le x l) = filter p (x :: l).
Proof.
  intros Hp. induction l as [|y t IH]; [reflexivity|].
  simpl insert. destruct (le x y) eqn:E; [reflexivity|].
  simpl filter in *. destruct (p y) eqn:Py.
  - destruct (p x) eqn:Px.
    + rewrite (Hp x y Px Py) in E. discriminate.
    + rewrite IH. reflexivity.
  - exact IH.
Qed.

Lemma sort_filter (p : A -> bool) (l : list A) :
  (forall a b, p a = true -> p b = true -> le a b = true) ->
  filter p (sort le l) = filter p l.
Proof.
  intros Hp. induction l as [|x t IH]; [reflexivity|].
  simpl sort. rewrite insert_filter by exact Hp.
  simpl. rewrite IH. reflexivity.
Qed.

Lemma sort_sorted_id (l : list A) :
  Sorted (fun a b => le a b = true) l -> sort le l = l.
Proof.
  induction 1 as [|x t Ht IH Hhd]; [reflexivity|].
  simpl sort. rewrite IH. destruct Hhd as [|y t' Hxy]; [reflexivity|].
  simpl. rewrite Hxy. reflexivity.
Qed.

Lemma insert_snoc_max (x y : A) (m : list A) :
  le y x = true -> insert le y (m ++ [x]) = insert le y m ++ [x].
Proof.
  intros Hyx. induction m as [|z t IH]; simpl.
  - rewrite Hyx. reflexivity.
  - destruct (le y z); [reflexivity|]. rewrite IH. reflexivity.
Qed.

Lemma sort_snoc_max (x : A) (l : list A) :
  (forall y, In y l -> le y x = true) -> sort le (l ++ [x]) = sort le l ++ [x].
Proof.
  induction l as [|y t IH]; intros Hmax; [reflexivity|].
  simpl. rewrite IH by (intros z Hz; apply Hmax; right; exact Hz).
  apply insert_snoc_max. apply Hmax. left. reflexivity.
Qed.

End SortStable.

Lemma period_lt_le (a b : period) : period_lt a b -> period_le a b.
Proof. unfold period_lt, period_le. lia. Qed.

Lemma period_le_neq_lt (a b : period) : period_le a b -> a <> b -> period_lt a b.
Proof.
  destruct a as [y m], b as [y' m']. unfold period_le, period_lt. simpl.
  intros H Hne. destruct (Z.eq_dec y y') as [->|]; [|lia].
  right. split; [reflexivity|].
  destruct (Z.eq_dec m m') as [->|]; [contradiction Hne; reflexivity|lia].
Qed.

Lemma period_lt_irrefl (a : period) : ~ period_lt a a.
Proof. unfold period_lt. lia. Qed.

Lemma period_le_lt_trans (a b c : period) :
  period_le a b -> period_lt b c -> period_lt a c.
Proof. unfold period_le, period_lt. lia. Qed.

(** ** The store *)

Section StorageFacts.
Context {F : Type} {num : Num F}.

Definition has_period (year month : Z) (b : BillRead.t F) : bool :=
  (BillRead.year b =? year) && (BillRead.month b =? month).

Lemma has_period_key (year month : Z) (b : BillRead.t F) :
  has_period year month b = true <-> bill_key b = (year, month).
Proof.
  unfold has_period, bill_key. rewrite andb_true_iff, !Z.eqb_eq.
  split; [intros [-> ->]; reflexivity|intros H; inversion H; split; reflexivity].
Qed.

Lemma find_in_filter (l : list (BillRead.t F)) (year month : Z) :
  find_in l year month = hd_error (filter (has_period year month) l).
Proof.
  induction l as [|b t IH]; [reflexivity|].
  simpl. fold (has_period year month b).
  destruct (has_period year month b); [reflexivity|exact IH].
Qed.

Lemma find_in_None (l : list (BillRead.t F)) (year month : Z) :
  find_in l year month = None <-> ~ In (year, month) (map bill_key l).
Proof.
  induction l as [|b t IH]; simpl; [tauto|].
  fold (has_period year month b).
  destruct (has_period year month b) eqn:E.
  - apply has_period_key in E. split; [discriminate|]. intros H. exfalso. auto.
  - rewrite IH. split; [|tauto]. intros Hn [Hb|Ht]; [|exact (Hn Ht)].
    apply has_period_key in Hb. congruence.
Qed.

Lemma find_in_Some (l : list (BillRead.t F)) (year month : Z) (b : BillRead.t F) :
  find_in l year month = Some b ->
  exists front rest,
    l = front ++ b :: rest
    /\ bill_key b = (year, month)
    /\ ~ In (year, month) (map bill_key front).
Proof.
  induction l as [|c t IH]; simpl; [discriminate|].
  fold (has_period year month c).
  destruct (has_period year month c) eqn:E.
  - intros H. inversion H; subst c. exists [], t.
    split; [reflexivity|]. split; [apply has_period_key; exact E|]. simpl. tauto.
  - intros H. destruct (IH H) as [front [rest [-> [Hk Hn]]]].
    exists (c :: front), rest. split; [reflexivity|]. split; [exact Hk|].
    simpl. intros [Hc|Hf]; [|exact (Hn Hf)].
    apply has_period_key in Hc. congruence.
Qed.

Lemma find_in_app (l l' : list (BillRead.t F)) (year month : Z) :
  find_in (l ++ l') year month
  = match find_in l year month with
    | Some b => Some b
    | None => find_in l' year month
    end.
Proof.
  induction l as [|b t IH]; [reflexivity|].
  simpl. destruct ((BillRead.year b =? year) && (BillRead.month b =? month));
    [reflexivity|exact IH].
Qed.

Lemma find_in_sort_bills (l : list (BillRead.t F)) (year month : Z) :
  find_in (sort_bills l) year month = find_in l year month.
Proof.
  rewrite !find_in_filter. unfold sort_bills. rewrite sort_filter; [reflexivity|].
  intros a b Ha Hb. apply has_period_key in Ha, Hb.
  rewrite Ha, Hb. apply period_leb_le, period_le_refl.
Qed.

Lemma sort_bills_perm (l : list (BillRead.t F)) : Permutation (sort_bills l) l.
Proof. apply sort_perm. Qed.

Lemma sort_bills_sorted (l : list (BillRead.t F)) : bills_sorted (sort_bills l).
Proof.
  unfold bills_sorted.
  eapply StronglySorted_weaken;
    [|apply (@sort_strongly_sorted _ (fun a b => period_leb (bill_key a) (bill_key b)))].
  - intros a b H. apply period_leb_le. exact H.
  - intros a b. apply period_leb_total.
  - intros a b c. apply period_leb_trans.
Qed.

Lemma sort_bills_id (l : list (BillRead.t F)) : bills_sorted l -> sort_bills l = l.
Proof.
  intros Hs. apply sort_sorted_id. apply StronglySorted_Sorted.
  eapply StronglySorted_weaken; [|exact Hs].
  intros a b H. apply period_leb_le. exact H.
Qed.

Lemma strictly_sorted_sorted (l : list (BillRead.t F)) :
  bills_strictly_sorted l -> bills_sorted l.
Proof.
  apply StronglySorted_weaken. intros a b. apply period_lt_le.
Qed.

Lemma strictly_sorted_NoDup (l : list (BillRead.t F)) :
  bills_strictly_sorted l -> NoDup (map bill_key l).
Proof.
  induction 1 as [|b t Ht IH Hall]; simpl; constructor; [|exact IH].
  intros Hin. apply in_map_iff in Hin. destruct Hin as [c [Hc Hin]].
  rewrite Forall_forall in Hall. specialize (Hall c Hin).
  rewrite Hc in Hall. exact (period_lt_irrefl Hall).
Qed.

Lemma sorted_NoDup_strictly (l : list (BillRead.t F)) :
  bills_sorted l -> NoDup (map bill_key l) -> bills_strictly_sorted l.
Proof.
  induction 1 as [|b t Ht IH Hall]; intros Hnd; constructor.
  - apply IH. inversion Hnd; assumption.
  - inversion Hnd as [|? ? Hnotin _]; subst.
    rewrite Forall_forall in *. intros c Hc.
    apply period_le_neq_lt; [exact (Hall c Hc)|].
    intros E. apply Hnotin. rewrite E. apply in_map. exact Hc.
Qed.

Lemma add_bill_perm (s : InMemoryStorage.t F) (bill : BillCreate.t F) :
  Permutation (list_bills (snd (add_bill s bill)))
    (fst (add_bill s bill) :: list_bills s).
Proof.
  unfold list_bills, add_bill. cbn [snd fst InMemoryStorage._bills].
  eapply perm_trans; [apply sort_bills_perm|].
  apply Permutation_sym, Permutation_cons_append.
Qed.

Lemma max_id_ge (b : BillRead.t F) (rest : list (BillRead.t F)) :
  BillRead.id b <= max_id b rest
  /\ Forall (fun c => BillRead.id c <= max_id b rest) rest.
Proof.
  unfold max_id. generalize (BillRead.id b) as a.
  induction rest as [|c t IH]; intros a; simpl; [split; [lia|constructor]|].
  destruct (IH (Z.max a (BillRead.id c))) as [H1 H2].
  split; [lia|]. constructor; [lia|exact H2].
Qed.

Lemma _load_ids_fresh (items : option (list (BillRead.t F))) : ids_fresh (_load items).
Proof.
  destruct items as [[|b rest]|]; unfold ids_fresh; simpl; try constructor.
  - destruct (max_id_ge b rest) as [H _]. lia.
  - destruct (max_id_ge b rest) as [_ H].
    eapply Forall_impl; [|exact H]. simpl. intros c Hc. lia.
Qed.

Lemma add_bill_ids_fresh (s : InMemoryStorage.t F) (bill : BillCreate.t F) :
  ids_fresh s -> ids_fresh (snd (add_bill s bill)).
Proof.
  intros Hfresh. unfold ids_fresh in *. rewrite Forall_forall in *. intros b Hb.
  apply (Permutation_in _ (add_bill_perm s bill)) in Hb. simpl.
  destruct Hb as [<-|Hb]; [simpl; lia|]. specialize (Hfresh b Hb). lia.
Qed.

Lemma add_bill_strictly_sorted (s : InMemoryStorage.t F) (bill : BillCreate.t F) :
  bills_strictly_sorted (list_bills s) ->
  find_bill s (BillCreate.year bill) (BillCreate.month bill) = None ->
  bills_strictly_sorted (list_bills (snd (add_bill s bill))).
Proof.
  intros Hs E. apply find_in_None in E.
  apply sorted_NoDup_strictly; [apply sort_bills_sorted|].
  apply (Permutation_NoDup
           (Permutation_sym (Permutation_map _ (add_bill_perm s bill)))).
  simpl. constructor; [exact E|]. apply strictly_sorted_NoDup. exact Hs.
Qed.

End StorageFacts.

Section StorageTheorems.
Context {F : Type}.

(** X1: [add_bill] gives the new bill the next id and the fields of the
    request, advances the counter by one, and leaves the stored list sorted
    ascending by [(year, month)] with exactly the old bills and the new one. *)
Theorem X1_add_bill_sorted_permutation :
  forall (s : InMemoryStorage.t F) (bill : BillCreate.t F),
    let new_bill := fst (add_bill s bill) in
    let s' := snd (add_bill s bill) in
    new_bill
    = BillRead.mk (IdCounter.next_id (InMemoryStorage._id_counter s))
        (BillCreate.year bill) (BillCreate.month bill)
        (BillCreate.kilowatt_hours bill) (BillCreate.cost bill)
        (BillCreate.emission_factor_kg_per_kwh bill)
    /\ IdCounter.next_id (InMemoryStorage._id_counter s')
       = IdCounter.next_id (InMemoryStorage._id_counter s) + 1
    /\ Permutation (list_bills s') (new_bill :: list_bills s)
    /\ bills_sorted (list_bills s')
    /\ length (list_bills s') = S (length (list_bills s)).
Proof.
  intros s bill new_bill s'.
  split; [reflexivity|]. split; [reflexivity|]. split; [apply add_bill_perm|].
  split; [apply sort_bills_sorted|].
  unfold s'. rewrite (Permutation_length (add_bill_perm s bill)). reflexivity.
Qed.

(** X2: looking a period up after [add_bill]: a bill that was found before is
    still the one found; a period that was absent now finds the new bill if
    it is the new bill's period and nothing otherwise. *)
Theorem X2_find_bill_after_add_bill :
  forall (s : InMemoryStorage.t F) (bill : BillCreate.t F) (year month : Z),
    find_bill (snd (add_bill s bill)) year month
    = match find_bill s year month with
      | Some b => Some b
      | None =>
          if (BillCreate.year bill =? year) && (BillCreate.month bill =? month)
          then Some (fst (add_bill s bill))
          else None
      end.
Proof.
  intros s bill year month. unfold find_bill, add_bill.
  cbn [snd fst InMemoryStorage._bills].
  rewrite find_in_sort_bills, find_in_app. reflexivity.
Qed.

(** X3: [find_bill] returns [None] exactly when no stored bill has the
    period, and otherwise the first stored bill with that period. *)
Theorem X3_find_bill_first_match :
  forall (s : InMemoryStorage.t F) (year month : Z),
    match find_bill s year month with
    | None => forall b, In b (list_bills s) -> bill_key b <> (year, month)
    | Some b =>
        exists front rest,
          list_bills s = front ++ b :: rest
          /\ BillRead.year b = year /\ BillRead.month b = month
          /\ forall c, In c front -> bill_key c <> (year, month)
    end.
Proof.
  intros s year month. unfold find_bill, list_bills.
  destruct (find_in (InMemoryStorage._bills s) year month) as [b|] eqn:E.
  - destruct (find_in_Some _ _ _ E) as [front [rest [Hl [Hk Hn]]]].
    exists front, rest. split; [exact Hl|].
    unfold bill_key in Hk. inversion Hk.
    split; [reflexivity|]. split; [reflexivity|].
    intros c Hc Ec. apply Hn. subst year month. rewrite <- Ec. apply in_map. exact Hc.
  - apply find_in_None in E. intros b Hb Eb. apply E. rewrite <- Eb.
    apply in_map. exact Hb.
Qed.

(** X4: ids stay fresh.  In every store the program can reach, each stored
    id is below the counter, so the bill that [add_bill] creates gets an id
    that no stored bill has, and distinct stored ids stay distinct. *)
Theorem X4_ids_fresh :
  forall s : InMemoryStorage.t F,
    reachable s ->
    ids_fresh s
    /\ forall bill : BillCreate.t F,
         (forall b, In b (list_bills s) ->
                    BillRead.id b <> BillRead.id (fst (add_bill s bill)))
         /\ (NoDup (map (@BillRead.id F) (list_bills s)) ->
             NoDup (map (@BillRead.id F) (list_bills (snd (add_bill s bill))))).
Proof.
  intros s Hr.
  assert (Hfresh : ids_fresh s).
  { induction Hr as [items|s bill Hr IH];
      [apply _load_ids_fresh|apply add_bill_ids_fresh; exact IH]. }
  split; [exact Hfresh|]. intros bill.
  assert (Hnew : forall b, In b (list_bills s) ->
                           BillRead.id b <> BillRead.id (fst (add_bill s bill))).
  { intros b Hb. unfold ids_fresh in Hfresh. rewrite Forall_forall in Hfresh.
    specialize (Hfresh b Hb). simpl. lia. }
  split; [exact Hnew|]. intros Hnd.
  apply (Permutation_NoDup
           (Permutation_sym (Permutation_map _ (add_bill_perm s bill)))).
  simpl. constructor; [|exact Hnd].
  intros Hin. apply in_map_iff in Hin. destruct Hin as [b [E Hb]].
  exact (Hnew b Hb E).
Qed.

End StorageTheorems.

(** ** The store and the reports read from it *)

Section SortMap.
Variables A B : Type.
Variable f : A -> B.
Variable leA : A -> A -> bool.
Variable leB : B -> B -> bool.
Hypothesis le_map : forall a b, leB (f a) (f b) = leA a b.

Lemma insert_map (x : A) (l : list A) :
  insert leB (f x) (map f l) = map f (insert leA x l).
Proof.
  induction l as [|y t IH]; [reflexivity|].
  simpl. rewrite le_map. destruct (leA x y); [reflexivity|].
  simpl. rewrite IH. reflexivity.
Qed.

Lemma sort_map (l : list A) : sort leB (map f l) = map f (sort leA l).
Proof.
  induction l as [|x t IH]; [reflexivity|].
  simpl. rewrite IH. apply insert_map.
Qed.

End SortMap.

Section ReportFacts.
Context {F : Type} {num : Num F}.

Lemma sort_asc_project (bills : list (BillRead.t F)) :
  sort_asc (get_usage_points bills) = get_usage_points (sort_bills bills).
Proof.
  unfold sort_asc, get_usage_points, sort_bills. apply sort_map. reflexivity.
Qed.

Lemma sort_asc_sorted_bills (bills : list (BillRead.t F)) :
  bills_sorted bills -> sort_asc (get_usage_points bills) = get_usage_points bills.
Proof.
  intros Hs. rewrite sort_asc_project, sort_bills_id by exact Hs. reflexivity.
Qed.

(** Sorting a strictly ascending list in descending order reverses it. *)
Lemma sort_desc_strictly_sorted (bills : list (BillRead.t F)) :
  bills_strictly_sorted bills ->
  sort_desc (get_usage_points bills) = rev (get_usage_points bills).
Proof.
  induction 1 as [|b t Ht IH Hall]; [reflexivity|].
  unfold sort_desc in *. simpl. rewrite IH.
  assert (G : forall l : list (UsagePoint.t F),
             (forall q, In q l -> period_leb (key q) (key (project b)) = false) ->
             insert (fun p q => period_leb (key q) (key p)) (project b) l
             = l ++ [project b]).
  { induction l as [|q l IHl]; intros Hl; [reflexivity|].
    simpl. rewrite (Hl q (or_introl eq_refl)). rewrite IHl; [reflexivity|].
    intros q' Hq'. apply Hl. right. exact Hq'. }
  apply G. intros q Hq. apply in_rev in Hq. apply in_map_iff in Hq.
  destruct Hq as [c [<- Hc]]. rewrite Forall_forall in Hall. specialize (Hall c Hc).
  destruct (period_leb (key (project c)) (key (project b))) eqn:E; [|reflexivity].
  apply period_leb_le in E. rewrite !key_project in E.
  exfalso. exact (period_lt_irrefl (period_le_lt_trans E Hall)).
Qed.

Lemma latest_bill_sorted (s : InMemoryStorage.t F) :
  bills_sorted (list_bills s) ->
  match latest_bill s with
  | None => list_bills s = []
  | Some b =>
      In b (list_bills s)
      /\ forall c, In c (list_bills s) -> period_le (bill_key c) (bill_key b)
  end.
Proof.
  unfold latest_bill, list_bills. intros Hs.
  destruct (rev (InMemoryStorage._bills s)) as [|b r] eqn:Er.
  - apply (f_equal (@rev _)) in Er. rewrite rev_involutive in Er. exact Er.
  - apply (f_equal (@rev _)) in Er. rewrite rev_involutive in Er. simpl in Er.
    rewrite Er in *. split; [apply in_or_app; right; left; reflexivity|].
    intros c Hc. apply in_app_or in Hc. destruct Hc as [Hc|[<-|[]]].
    + exact (@StronglySorted_last_max _ _ (rev r) b c Hs Hc).
    + apply period_le_refl.
Qed.

End ReportFacts.

Section ReportTheorems.
Context {F : Type} {num : Num F}.

(** X5: on a store whose list is sorted by period, as it is after every
    [add_bill], [latest_bill] returns nothing only for the empty store and
    otherwise a stored bill that no stored bill is later than. *)
Theorem X5_latest_bill_is_latest :
  forall s : InMemoryStorage.t F,
    bills_sorted (list_bills s) ->
    match latest_bill s with
    | None => list_bills s = []
    | Some b => latest_period (list_bills s) (bill_key b) /\ In b (list_bills s)
    end.
Proof.
  intros s Hs. generalize (latest_bill_sorted s Hs).
  destruct (latest_bill s) as [b|]; [|tauto].
  intros [Hin Hmax]. split; [|exact Hin].
  split; [exists b; split; [exact Hin|reflexivity]|exact Hmax].
Qed.

(** The report made of one bill. *)
Definition report_of (b : BillRead.t F) : CurrentMonthReport.t F :=
  CurrentMonthReport.mk (BillRead.year b) (BillRead.month b)
    (BillRead.kilowatt_hours b) (BillRead.cost b)
    (fmul (BillRead.kilowatt_hours b) (BillRead.emission_factor_kg_per_kwh b)).

Definition report_of_point (p : UsagePoint.t F) : CurrentMonthReport.t F :=
  CurrentMonthReport.mk (UsagePoint.year p) (UsagePoint.month p)
    (UsagePoint.kilowatt_hours p) (UsagePoint.cost p) (UsagePoint.emissions_kg p).

(** X7: on a store sorted by period, [current_month_report] is empty only
    for the empty store; otherwise it reports the chronologically latest
    period, carries the fields of the last usage point in ascending order
    (the point the forecast continues from and the advice reads its cost
    from). *)
Theorem X7_current_month_report_latest_point :
  forall s : InMemoryStorage.t F,
    bills_sorted (list_bills s) ->
    match current_month_report s with
    | None => list_bills s = []
    | Some r =>
        latest_period (list_bills s)
          (CurrentMonthReport.year r, CurrentMonthReport.month r)
        /\ (exists b, In b (list_bills s) /\ r = report_of b)
        /\ exists p,
             py_last (sort_asc (get_usage_points (list_bills s))) = Ok p
             /\ r = report_of_point p
    end.
Proof.
  intros s Hs. generalize (latest_bill_sorted s Hs).
  unfold current_month_report.
  destruct (latest_bill s) as [b|] eqn:El; [|tauto].
  intros [Hin Hmax]. split; [|split].
  - split; [exists b; split; [exact Hin|reflexivity]|exact Hmax].
  - exists b. split; [exact Hin|reflexivity].
  - exists (project b). split; [|reflexivity].
    rewrite sort_asc_sorted_bills by exact Hs.
    unfold latest_bill, list_bills in *. unfold py_last, get_usage_points.
    rewrite <- map_rev.
    destruct (rev (InMemoryStorage._bills s)) as [|c t]; [discriminate|].
    inversion El. reflexivity.
Qed.

(** X8: when no period is stored twice and the list is in ascending order,
    the most recent usage is the stored order reversed, cut at the limit. *)
Theorem X8_recent_usage_reverses_store :
  forall (bills : list (BillRead.t F)) (limit : Z),
    bills_strictly_sorted bills ->
    get_recent_usage bills limit
    = firstn (Z.to_nat (Z.max 0 limit)) (rev (get_usage_points bills)).
Proof.
  intros bills limit Hs. unfold get_recent_usage, py_prefix.
  rewrite sort_desc_strictly_sorted by exact Hs. reflexivity.
Qed.

End ReportTheorems.

(** ** The forecast, continued *)

Section ForecastTheorems.
Context {F : Type} {num : Num F}.

Lemma max0_cases (v : F) : max0 v = of_int 0 \/ fltb (of_int 0) (max0 v) = true.
Proof.
  unfold max0. destruct (fltb (of_int 0) v) eqn:E; [right; exact E|left; reflexivity].
Qed.

(** The periods that the loop of [predict_usage] assigns from a month in
    [1..12] are the following calendar months, one after the other. *)
Lemma assign_periods_calendar (preds : list F) (y m : Z) (k : nat)
  (p : PredictionPoint.t F) :
  1 <= m <= 12 ->
  nth_error (assign_periods y m preds) k = Some p ->
  1 <= PredictionPoint.month p <= 12
  /\ 12 * PredictionPoint.year p + PredictionPoint.month p
     = 12 * y + m + Z.of_nat k + 1.
Proof.
  revert y m k p. induction preds as [|v t IH]; intros y m k p Hm Hk.
  - destruct k; discriminate.
  - simpl in Hk. destruct (12 <? m + 1) eqn:E.
    + apply Z.ltb_lt in E. destruct k as [|k]; simpl in Hk.
      * inversion Hk; subst p. cbn [PredictionPoint.year PredictionPoint.month]. lia.
      * apply IH in Hk; [|lia]. lia.
    + apply Z.ltb_ge in E. destruct k as [|k]; simpl in Hk.
      * inversion Hk; subst p. cbn [PredictionPoint.year PredictionPoint.month]. lia.
      * apply IH in Hk; [|lia]. lia.
Qed.

(** X9: [predict_usage] never raises, whatever the bills and the horizon:
    it echoes the horizon, returns one prediction per step (none for a
    horizon of zero or less), and every predicted value is [0.0] or positive. *)
Theorem X9_predict_total_and_clamped :
  forall (bills : list (BillRead.t F)) (horizon : Z),
    exists r,
      predict_usage bills horizon = Ok r
      /\ PredictionResult.horizon_months r = horizon
      /\ length (PredictionResult.predictions r) = Z.to_nat horizon
      /\ (horizon <= 0 -> PredictionResult.predictions r = [])
      /\ Forall (fun p => PredictionPoint.predicted_kwh p = of_int 0
                          \/ fltb (of_int 0) (PredictionPoint.predicted_kwh p) = true)
           (PredictionResult.predictions r).
Proof.
  intros bills horizon.
  destruct (predict_usage_ok bills horizon) as [preds [start [_ [Hlen [_ Hr]]]]].
  eexists. split; [exact Hr|]. split; [reflexivity|].
  cbn [PredictionResult.predictions].
  assert (Hl : length (assign_periods (fst start) (snd start) preds)
               = Z.to_nat horizon).
  { rewrite <- Hlen, <- (length_map (@PredictionPoint.predicted_kwh F)),
      assign_periods_values. apply length_map. }
  split; [exact Hl|]. split.
  - intros Hle. replace (Z.to_nat horizon) with 0%nat in Hl by lia.
    apply length_zero_iff_nil. exact Hl.
  - apply Forall_forall. intros p Hp.
    apply (in_map (@PredictionPoint.predicted_kwh F)) in Hp.
    rewrite assign_periods_values in Hp. apply in_map_iff in Hp.
    destruct Hp as [v [<- _]]. apply max0_cases.
Qed.

(** X10: when the latest stored period is [(y, m)] with [m] in [1..12], the
    predictions are for the calendar months that follow it, one per step:
    the prediction at position [k] (from 0) has a month in [1..12] and lies
    [k + 1] months after [(y, m)]. *)
Theorem X10_predict_periods_follow_the_calendar :
  forall (bills : list (BillRead.t F)) (horizon y m : Z),
    latest_period bills (y, m) ->
    1 <= m <= 12 ->
    exists r,
      predict_usage bills horizon = Ok r
      /\ forall (k : nat) (p : PredictionPoint.t F),
           nth_error (PredictionResult.predictions r) k = Some p ->
           1 <= PredictionPoint.month p <= 12
           /\ 12 * PredictionPoint.year p + PredictionPoint.month p
              = 12 * y + m + Z.of_nat k + 1.
Proof.
  intros bills horizon y m Hlatest Hm.
  destruct (predict_usage_ok bills horizon) as [preds [start [_ [_ [Hstart Hr]]]]].
  destruct (last_sorted_latest Hlatest) as [q [Hq Hk]].
  assert (Hs : start = (y, m)).
  { destruct bills as [|b t].
    - destruct Hlatest as [[b [[] _]] _].
    - destruct Hstart as [q' [Hq' ->]]. rewrite Hq in Hq'. inversion Hq'; subst q'.
      exact Hk. }
  subst start. eexists. split; [exact Hr|].
  intros k p Hp. exact (@assign_periods_calendar preds y m k p Hm Hp).
Qed.

End ForecastTheorems.

(** ** Exact arithmetic, continued *)

Section ExactMore.
Local Open Scope Qc_scope.

Lemma sigma_app (l l' : list Qc) : sigma (l ++ l') = sigma l + sigma l'.
Proof.
  induction l as [|x t IH]; simpl; [ring|]. rewrite IH. ring.
Qed.

Lemma sigma_perm (l l' : list Qc) : Permutation l l' -> sigma l = sigma l'.
Proof.
  induction 1 as [|x l l' _ IH|x y l|l l' l'' _ IH1 _ IH2]; simpl.
  - reflexivity.
  - rewrite IH. reflexivity.
  - ring.
  - rewrite IH1. exact IH2.
Qed.

Lemma sigma_scale (d : Qc) (A : Type) (g : A -> Qc) (l : list A) :
  sigma (map (fun x => d * g x) l) = d * sigma (map g l).
Proof.
  induction l as [|x t IH]; simpl; [ring|]. rewrite IH. ring.
Qed.

Lemma sigma_affine (c d : Qc) (l : list Qc) :
  sigma (map (fun x => c + d * x) l)
  = Qc_of_int (Z.of_nat (length l)) * c + d * sigma l.
Proof.
  induction l as [|x t IH].
  - simpl. rewrite Qc_of_int_0. ring.
  - cbn [map sigma length]. rewrite IH, Nat2Z.inj_succ, <- Z.add_1_l, Qc_of_int_add.
    replace (Qc_of_int 1) with 1 by reflexivity. ring.
Qed.

Lemma combine_map_r {A B : Type} (f : A -> B) (l : list A) :
  combine l (map f l) = map (fun x => (x, f x)) l.
Proof.
  induction l as [|x t IH]; simpl; [reflexivity|]. rewrite IH. reflexivity.
Qed.

Lemma mean_affine (c d : Qc) (l : list Qc) :
  l <> [] -> mean (map (fun x => c + d * x) l) = c + d * mean l.
Proof.
  intros Hne. unfold mean. rewrite length_map, sigma_affine.
  field. apply Qc_of_int_nonzero. destruct l; [contradiction|simpl; lia].
Qed.

(** On points that lie on a line, least squares finds that line. *)
Lemma ols_of_line (c d : Qc) (n : nat) :
  (2 <= n)%nat ->
  let ys := map (fun x => c + d * x) (xs_of n) in
  ols_slope ys = d /\ ols_intercept ys = c.
Proof.
  intros Hn ys.
  assert (Hlen : length ys = n) by (unfold ys; rewrite length_map; apply xs_of_length).
  assert (Hne : xs_of n <> []).
  { intros E. apply (f_equal (@length _)) in E. rewrite xs_of_length in E.
    simpl in E. lia. }
  assert (Hmean : mean ys = c + d * mean (xs_of n)) by (apply mean_affine; exact Hne).
  assert (Hss : sigma (map (fun x => (x - mean (xs_of n)) ^ 2) (xs_of n)) <> 0).
  { intros E. generalize (ss_xx_pos (mean (xs_of n)) Hn). rewrite E.
    intros H. exact (Qclt_not_eq _ _ H eq_refl). }
  assert (Hslope : ols_slope ys = d).
  { unfold ols_slope. rewrite Hlen, Hmean. unfold ys.
    rewrite combine_map_r, map_map. cbn [fst snd].
    rewrite (map_ext _ (fun x => d * (x - mean (xs_of n)) ^ 2))
      by (intros x; simpl; ring).
    rewrite sigma_scale. field. exact Hss. }
  split; [exact Hslope|].
  unfold ols_intercept. rewrite Hslope, Hlen, Hmean. ring.
Qed.

Lemma Qc_max_0_nonneg (v : Qc) : 0 <= Qc_max 0 v.
Proof.
  unfold Qc_max. destruct (Qc_leb 0 v) eqn:E; [|apply Qcle_refl].
  unfold Qc_leb in E. apply Qcle_alt. intros H. rewrite H in E. discriminate.
Qed.



End ExactMore.

(** ** The advice rules, continued *)


Section AdviceExact.
Local Open Scope Qc_scope.

Lemma sigma_pos_all (l : list Qc) :
  l <> [] -> Forall (fun t => 0 < t) l -> 0 < sigma l.
Proof.
  intros Hne Hall. destruct l as [|x t]; [contradiction|].
  inversion Hall as [|? ? Hx Ht]; subst.
  apply (@sigma_pos (x :: t) x).
  - eapply Forall_impl; [|exact Hall]. intros a. apply Qclt_le_weak.
  - left. reflexivity.
  - exact Hx.
Qed.


End AdviceExact.

(** ** The handler [averages] *)

Section AveragesFacts.
Context {F : Type} {num : Num F}.

Lemma py_suffix_length {A : Type} (k : nat) (l : list A) :
  length (py_suffix k l) = Nat.min k (length l).
Proof.
  unfold py_suffix. rewrite length_skipn. lia.
Qed.

Lemma py_suffix_all {A : Type} (k : nat) (l : list A) :
  (length l <= k)%nat -> py_suffix k l = l.
Proof.
  intros H. unfold py_suffix. replace (length l - k)%nat with 0%nat by lia.
  reflexivity.
Qed.

(** The mean of the window that [averages] takes, in one field. *)
Definition window_mean (field : UsagePoint.t F -> F) (window : list (UsagePoint.t F))
  : F :=
  fquot (fsum (map field window)) (of_int (Z.of_nat (length window))).

Lemma averages_eq (bills : list (BillRead.t F)) :
  bills <> [] ->
  let pts := sort_asc (get_usage_points bills) in
  exists front last,
    pts = front ++ [last]
    /\ averages bills
       = Ok (AveragesResponse.mk
               (KwhEmissions.mk (UsagePoint.kilowatt_hours last)
                  (UsagePoint.emissions_kg last))
               (KwhEmissions.mk
                  (window_mean (@UsagePoint.kilowatt_hours F) (py_suffix 6 pts))
                  (window_mean (@UsagePoint.emissions_kg F) (py_suffix 6 pts)))).
Proof.
  intros Hne pts.
  assert (Hlen : length pts = length bills)
    by (unfold pts; rewrite sort_asc_length; apply get_usage_points_length).
  assert (Hpos : (0 < length bills)%nat) by (destruct bills; [contradiction|simpl; lia]).
  destruct (exists_last (l := pts)) as [front [last Hpts]].
  { intros E. rewrite E in Hlen. simpl in Hlen. lia. }
  exists front, last. split; [exact Hpts|].
  unfold averages. fold pts.
  assert (Hw : length (py_suffix 6 pts) = Nat.min 6 (length pts))
    by apply py_suffix_length.
  destruct pts as [|p0 ps] eqn:Ep; [simpl in Hlen; lia|].
  rewrite Hpts at 1. rewrite py_last_app. cbv beta iota zeta delta [bind].
  destruct (py_suffix 6 (p0 :: ps)) as [|w0 ws] eqn:Ew; [simpl in Hw; lia|].
  destruct (Z.eqb_spec (Z.of_nat (length (w0 :: ws))) 0) as [E|E];
    [simpl in E; lia|].
  rewrite !truediv_int_ok by exact E. reflexivity.
Qed.

End AveragesFacts.



(** X17: on a store sorted by period, the last month of [averages] shows
    the kWh and the emissions of [current_month_report], and zeros when there
    is no report. *)
Theorem X17_averages_last_month_is_current_month :
  forall (F : Type) (num : Num F) (s : InMemoryStorage.t F),
    bills_sorted (list_bills s) ->
    exists resp,
      averages (list_bills s) = Ok resp
      /\ AveragesResponse.last_month resp
         = match current_month_report s with
           | Some r =>
               KwhEmissions.mk (CurrentMonthReport.kilowatt_hours r)
                 (CurrentMonthReport.emissions_kg r)
           | None => KwhEmissions.mk (of_int 0) (of_int 0)
           end.
Proof.
  intros F num s Hs. unfold current_month_report, latest_bill.
  destruct (list_bills s) as [|b t] eqn:El.
  - unfold list_bills in El. rewrite El. eexists. split; reflexivity.
  - destruct (@averages_eq _ _ (b :: t)) as [front [last [Hpts Ha]]]; [discriminate|].
    eexists. split; [exact Ha|]. cbn [AveragesResponse.last_month].
    rewrite <- El in Hpts, Hs. rewrite sort_asc_sorted_bills in Hpts by exact Hs.
    unfold list_bills in Hpts. unfold get_usage_points in Hpts.
    apply (f_equal (@rev _)) in Hpts. rewrite <- map_rev, rev_app_distr in Hpts.
    simpl in Hpts.
    destruct (rev (InMemoryStorage._bills s)) as [|c r]; [discriminate|].
    simpl in Hpts. inversion Hpts. reflexivity.
Qed.

(** ** The handler [estimate_factor] *)

Module Binary64Defaults.
Import PrimFloat.

(** The defaults are the doubles that the interpreter reads [0.10] and
    [0.05] as. *)
Lemma float_defaults :
  default_energy_price (F := float) = (0x1.999999999999ap-4)%float
  /\ default_carbon_price (F := float) = (0x1.999999999999ap-5)%float.
Proof. split; vm_compute; reflexivity. Qed.

Lemma float_nonpos_nonzero (x : float) :
  leb x (Binary64.float_of_int 0) = false -> eqb x (Binary64.float_of_int 0) = false.
Proof.
  rewrite FloatAxioms.leb_spec, FloatAxioms.eqb_spec.
  change (FloatOps.Prim2SF (Binary64.float_of_int 0)) with (SpecFloat.S754_zero false).
  destruct (FloatOps.Prim2SF x) as [s | s | | s m e]; try destruct s; cbv; congruence.
Qed.

End Binary64Defaults.

Lemma Qc_nonpos_nonzero (x : Qc) :
  Qc_leb x (Qc_of_int 0) = false -> Qc_eq_bool x (Qc_of_int 0) = false.
Proof.
  intros H. apply Qc_eq_bool_false. intros ->.
  unfold Qc_leb in H. rewrite (proj1 (Qceq_alt _ _) eq_refl) in H. discriminate.
Qed.

(** What [estimate_factor] answers on a number system where a number that is
    not [<= 0] is not zero: it never raises, refuses a kWh or a carbon price
    that is [<= 0], and otherwise echoes its inputs with an estimate that is
    [0.0] or positive. *)
Definition estimate_factor_guarded (F : Type) (num : Num F) : Prop :=
  forall (total_cost kwh : F) (energy_price carbon_price : option F),
    let energy := match energy_price with Some p => p | None => default_energy_price end in
    let carbon := match carbon_price with Some p => p | None => default_carbon_price end in
    exists resp,
      estimate_factor total_cost kwh energy_price carbon_price = Ok resp
      /\ match resp with
         | EstimateRefused detail =>
             (fleb kwh (of_int 0) = true /\ detail = "kwh must be > 0"%string)
             \/ (fleb kwh (of_int 0) = false /\ fleb carbon (of_int 0) = true
                 /\ detail = "carbon_price_per_kg must be > 0"%string)
         | Estimate factor total_cost' kwh' energy' carbon' =>
             fleb kwh (of_int 0) = false /\ fleb carbon (of_int 0) = false
             /\ (factor = of_int 0 \/ fltb (of_int 0) factor = true)
             /\ factor = max0 (fquot (fsub (fquot total_cost kwh) energy) carbon)
             /\ total_cost' = total_cost /\ kwh' = kwh
             /\ energy' = energy /\ carbon' = carbon
         end.

Lemma estimate_factor_guarded_of (F : Type) (num : Num F) :
  (forall x : F, fleb x (of_int 0) = false -> feqb x (of_int 0) = false) ->
  estimate_factor_guarded num.
Proof.
  intros Hlaw total_cost kwh energy_price carbon_price energy carbon.
  unfold estimate_factor. fold energy. fold carbon.
  destruct (fleb kwh (of_int 0)) eqn:Ek.
  { eexists. split; [reflexivity|]. left. split; reflexivity. }
  destruct (fleb carbon (of_int 0)) eqn:Ec.
  { eexists. split; [reflexivity|]. right. repeat split; reflexivity. }
  unfold truediv. rewrite (Hlaw kwh Ek). cbv beta iota zeta delta [bind].
  rewrite (Hlaw carbon Ec).
  eexists. split; [reflexivity|]. cbv beta iota.
  split; [reflexivity|]. split; [reflexivity|]. split; [apply max0_cases|].
  repeat split; reflexivity.
Qed.


Section EstimateExact.
Local Open Scope Qc_scope.

Lemma Qc_sign_of_scaled (c r k : Qc) :
  0 < c -> 0 < k -> (0 < r -> 0 < c * r * k) /\ (r <= 0 -> c * r * k <= 0).
Proof.
  destruct c as [c Hc], r as [r Hr], k as [k Hk].
  unfold Qclt, Qcle, Qcmult, Q2Qc; cbn [this]. rewrite !Qred_correct.
  intros H1 H2. split; intros H3.
  - assert (H4 : (0 < c * r)%Q) by nra. nra.
  - assert (H4 : (c * r <= 0)%Q) by nra. nra.
Qed.

Lemma Qc_lt_add_pos (a x : Qc) : 0 < x -> a < a + x.
Proof.
  destruct a as [a Ha], x as [x Hx].
  unfold Qclt, Qcplus, Q2Qc; cbn [this]. rewrite !Qred_correct. intros H. lra.
Qed.

Lemma Qc_add_nonpos_le (a x : Qc) : x <= 0 -> a + x <= a.
Proof.
  destruct a as [a Ha], x as [x Hx].
  unfold Qcle, Qcplus, Q2Qc; cbn [this]. rewrite !Qred_correct. intros H. lra.
Qed.

Lemma Qc_leb_iff (a b : Qc) : Qc_leb a b = true <-> a <= b.
Proof.
  unfold Qc_leb. rewrite Qcle_alt. destruct (a ?= b); split; congruence.
Qed.

Lemma Qc_leb_pos_false (x : Qc) : 0 < x -> Qc_leb x (Qc_of_int 0) = false.
Proof.
  intros H. destruct (Qc_leb x (Qc_of_int 0)) eqn:E; [|reflexivity].
  apply Qc_leb_iff in E. exfalso. exact (Qclt_not_le _ _ H E).
Qed.


End EstimateExact.

(** ** The token check and [create_bill] *)

Section TokenFacts.
Import Ascii.

Lemma prefix_app (p s : string) :
  String.prefix p s = true <-> exists rest, s = append p rest.
Proof.
  revert s. induction p as [|a p IH]; intros s.
  - split; [intros _; exists s; reflexivity|intros _; destruct s; reflexivity].
  - destruct s as [|b s]; simpl.
    + split; [discriminate|intros [rest H]; discriminate].
    + destruct (ascii_dec a b) as [->|Hab].
      * rewrite IH. split; intros [rest H]; exists rest; [rewrite H|inversion H];
          reflexivity.
      * split; [discriminate|]. intros [rest H]. inversion H. exfalso. auto.
Qed.

Lemma existsb_eqb_In (token : string) (l : list string) :
  existsb (String.eqb token) l = true <-> In token l.
Proof.
  rewrite existsb_exists. split.
  - intros [x [Hx E]]. apply String.eqb_eq in E. subst x. exact Hx.
  - intros H. exists token. split; [exact H|apply String.eqb_refl].
Qed.

Lemma bearer_token_issued_spec (issued_tokens : list string) (auth : string) :
  exists b,
    bearer_token_issued issued_tokens auth = Ok b
    /\ (b = true
        <-> exists token, auth = append "Bearer " token /\ In token issued_tokens).
Proof.
  unfold bearer_token_issued.
  destruct (String.prefix "Bearer " auth) eqn:E.
  - apply prefix_app in E. destruct E as [rest ->].
    change (snd (split_once " "%char (append "Bearer " rest))) with (Some rest).
    eexists. split; [reflexivity|]. rewrite existsb_eqb_In. split.
    + intros H. exists rest. split; [reflexivity|exact H].
    + intros [token [E H]]. simpl in E. inversion E. exact H.
  - exists false. split; [reflexivity|]. split; [discriminate|].
    intros [token [H _]].
    assert (Hp : String.prefix "Bearer " auth = true)
      by (apply prefix_app; exists token; exact H).
    congruence.
Qed.

End TokenFacts.

(** X20: the token check of [create_bill] never raises, and it passes
    exactly when the Authorization header is ["Bearer "] followed by a token
    that was issued (the text after the first space is the token, whatever it
    contains); a header that passes keeps passing when more tokens are
    issued. *)
Theorem X20_bearer_token_check :
  forall (issued_tokens : list string) (auth : string),
    exists b,
      bearer_token_issued issued_tokens auth = Ok b
      /\ (b = true
          <-> exists token,
                auth = append "Bearer " token /\ In token issued_tokens)
      /\ forall later : list string,
           b = true -> bearer_token_issued (later ++ issued_tokens) auth = Ok true.
Proof.
  intros issued_tokens auth.
  destruct (bearer_token_issued_spec issued_tokens auth) as [b [Hb Hiff]].
  exists b. split; [exact Hb|]. split; [exact Hiff|].
  intros later Ht. apply Hiff in Ht. destruct Ht as [token [Ha Hin]].
  destruct (bearer_token_issued_spec (later ++ issued_tokens) auth) as [b' [Hb' Hiff']].
  rewrite Hb'. f_equal. apply Hiff'. exists token.
  split; [exact Ha|]. apply in_or_app. right. exact Hin.
Qed.

Lemma create_bill_cases (F : Type) (issued_tokens : list string)
  (s : InMemoryStorage.t F) (auth : string) (data : string + BillCreate.t F) :
  exists resp s',
    create_bill issued_tokens s auth data = Ok (resp, s')
    /\ ((resp = Unauthorized /\ s' = s
         /\ ~ exists token, auth = append "Bearer " token /\ In token issued_tokens)
        \/ ((exists token, auth = append "Bearer " token /\ In token issued_tokens)
            /\ ((exists detail, data = inl detail /\ resp = BadRequest detail /\ s' = s)
                \/ (exists bill b,
                      data = inr bill
                      /\ find_bill s (BillCreate.year bill) (BillCreate.month bill)
                         = Some b
                      /\ resp = BadRequest "Bill for this month already exists"%string
                      /\ s' = s)
                \/ (exists bill,
                      data = inr bill
                      /\ find_bill s (BillCreate.year bill) (BillCreate.month bill)
                         = None
                      /\ resp = Created (fst (add_bill s bill))
                      /\ s' = snd (add_bill s bill))))).
Proof.
  unfold create_bill.
  destruct (bearer_token_issued_spec issued_tokens auth) as [b [Hb Hiff]].
  rewrite Hb. cbv beta iota zeta delta [bind]. destruct b; cbn [negb].
  - assert (Htok := proj1 Hiff eq_refl).
    destruct data as [detail|bill].
    + eexists. eexists. split; [reflexivity|]. right. split; [exact Htok|].
      left. exists detail. repeat split.
    + destruct (find_bill s (BillCreate.year bill) (BillCreate.month bill))
        as [b|] eqn:E.
      * eexists. eexists. split; [reflexivity|]. right. split; [exact Htok|].
        right. left. exists bill, b. repeat split. exact E.
      * eexists. eexists. split; [reflexivity|]. right. split; [exact Htok|].
        right. right. exists bill. repeat split. exact E.
  - eexists. eexists. split; [reflexivity|]. left.
    split; [reflexivity|]. split; [reflexivity|].
    intros H. apply Hiff in H. discriminate.
Qed.


(** X6: the duplicate check of [create_bill] keeps the periods of the store
    distinct: whatever the request, a store whose bills are in strictly
    ascending order of period (no period twice) is left in strictly
    ascending order, also when it was loaded from a file. *)
Theorem X6_create_bill_keeps_periods_distinct :
  forall (F : Type) (issued_tokens : list string) (s s' : InMemoryStorage.t F)
         (auth : string) (data : string + BillCreate.t F)
         (resp : CreateBillResponse F),
    bills_strictly_sorted (list_bills s) ->
    create_bill issued_tokens s auth data = Ok (resp, s') ->
    bills_strictly_sorted (list_bills s')
    /\ NoDup (map bill_key (list_bills s')).
Proof.
  intros F issued_tokens s s' auth data resp Hs Hc.
  assert (H : bills_strictly_sorted (list_bills s')).
  { destruct (create_bill_cases issued_tokens s auth data)
      as [resp' [s'' [Hc' Hcases]]].
    rewrite Hc in Hc'. inversion Hc'; subst resp' s''. clear Hc'.
    destruct Hcases as [[_ [E _]]|[_ [[d [_ [_ E]]]|[[bill [b0 [_ [_ [_ E]]]]]|H]]]];
      try (rewrite E; exact Hs).
    destruct H as [bill [_ [Efind [_ ->]]]].
    apply add_bill_strictly_sorted; assumption. }
  split; [exact H|apply strictly_sorted_NoDup; exact H].
Qed.

(** The stores that serving requests leads to, from a start without a data
    file. *)
Inductive served (F : Type) : InMemoryStorage.t F -> Prop :=
| served_start : served (_load None)
| served_create (issued_tokens : list string) (s s' : InMemoryStorage.t F)
    (auth : string) (data : string + BillCreate.t F) (resp : CreateBillResponse F) :
    served s ->
    create_bill issued_tokens s auth data = Ok (resp, s') ->
    served s'.

(** X22: started without a data file, the store always holds its bills in
    strictly ascending order of period (no period twice), and the ids are
    the numbers [1..n] handed out once each, with the counter at [n + 1]. *)
Theorem X22_served_store_invariants :
  forall (F : Type) (s : InMemoryStorage.t F),
    served s ->
    let n := Z.of_nat (length (list_bills s)) in
    bills_strictly_sorted (list_bills s)
    /\ IdCounter.next_id (InMemoryStorage._id_counter s) = n + 1
    /\ NoDup (map (@BillRead.id F) (list_bills s))
    /\ forall b, In b (list_bills s) -> 1 <= BillRead.id b <= n.
Proof.
  intros F s Hs.
  induction Hs as [|issued_tokens s s' auth data resp Hs IH Hc].
  - cbv zeta. simpl. split; [constructor|]. split; [reflexivity|].
    split; [constructor|]. intros b [].
  - cbv zeta in *. destruct IH as [Hsorted [Hnext [Hnd Hids]]].
    destruct (create_bill_cases issued_tokens s auth data)
      as [resp' [s'' [Hc' Hcases]]].
    rewrite Hc in Hc'. inversion Hc'; subst resp' s''. clear Hc'.
    assert (Hsame : s' = s ->
              bills_strictly_sorted (list_bills s')
              /\ IdCounter.next_id (InMemoryStorage._id_counter s')
                 = Z.of_nat (length (list_bills s')) + 1
              /\ NoDup (map (@BillRead.id F) (list_bills s'))
              /\ forall b, In b (list_bills s') ->
                           1 <= BillRead.id b <= Z.of_nat (length (list_bills s')))
      by (intros ->; repeat split; try assumption; apply Hids; assumption).
    destruct Hcases as [[_ [E _]]|[_ [[d [_ [_ E]]]|[[bill [b0 [_ [_ [_ E]]]]]|H]]]];
      try (apply Hsame; exact E).
    destruct H as [bill [_ [Efind [_ ->]]]].
    assert (Hperm := add_bill_perm s bill).
    assert (Hlen : length (list_bills (snd (add_bill s bill)))
                   = S (length (list_bills s)))
      by (rewrite (Permutation_length Hperm); reflexivity).
    split; [apply add_bill_strictly_sorted; assumption|].
    split; [rewrite Hlen; simpl; lia|].
    split.
    + apply (Permutation_NoDup (Permutation_sym (Permutation_map _ Hperm))).
      simpl. constructor; [|exact Hnd].
      intros Hin. apply in_map_iff in Hin. destruct Hin as [b [E Hb]].
      specialize (Hids b Hb). lia.
    + intros b Hb. apply (Permutation_in _ Hperm) in Hb. rewrite Hlen.
      destruct Hb as [<-|Hb]; [simpl; lia|]. specialize (Hids b Hb). lia.
Qed.

(** ** The one-time password *)

Section OtpFacts.
Import Ascii.

(** What holds of the password made of the bytes [b0], [b1]. *)
Definition otp_ok (b0 b1 : Z) : bool :=
  let otp := otp_of_random [b0; b1] in
  (String.length otp =? 6)%nat
  && match otp with
     | String c _ => Ascii.eqb c "0"%char
     | EmptyString => false
     end
  && forallb (fun c => (48 <=? nat_of_ascii c)%nat && (nat_of_ascii c <=? 57)%nat)
       (list_ascii_of_string otp)
  && (int_of_digits otp =? 256 * b0 + b1).

Lemma otp_ok_all :
  forallb (fun i => forallb (fun j => otp_ok (Z.of_nat i) (Z.of_nat j)) (seq 0 256))
    (seq 0 256) = true.
Proof. vm_compute. reflexivity. Qed.

Lemma otp_ok_bytes (b0 b1 : Z) :
  0 <= b0 < 256 -> 0 <= b1 < 256 -> otp_ok b0 b1 = true.
Proof.
  intros H0 H1. generalize otp_ok_all. rewrite forallb_forall. intros Hall.
  specialize (Hall (Z.to_nat b0)). rewrite forallb_forall in Hall.
  specialize (Hall ltac:(apply in_seq; lia) (Z.to_nat b1) ltac:(apply in_seq; lia)).
  rewrite !Z2Nat.id in Hall by lia. exact Hall.
Qed.

End OtpFacts.

(** X23: the one-time password made of two random bytes is always six
    decimal digits that spell the number [256 * b0 + b1], so it starts with
    0, is below 065536, and two passwords are equal only for equal bytes: at
    most 65536 of the million six-digit codes are ever sent. *)
Theorem X23_otp_is_sixteen_bits :
  forall b0 b1 : Z,
    0 <= b0 < 256 -> 0 <= b1 < 256 ->
    let otp := otp_of_random [b0; b1] in
    String.length otp = 6%nat
    /\ (exists rest, otp = String (Ascii.ascii_of_nat 48) rest)
    /\ Forall (fun c => (48 <= Ascii.nat_of_ascii c <= 57)%nat)
         (list_ascii_of_string otp)
    /\ int_of_digits otp = 256 * b0 + b1
    /\ int_of_digits otp < 65536
    /\ forall b0' b1' : Z,
         0 <= b0' < 256 -> 0 <= b1' < 256 ->
         otp_of_random [b0'; b1'] = otp -> b0' = b0 /\ b1' = b1.
Proof.
  intros b0 b1 H0 H1 otp.
  assert (Hok := otp_ok_bytes H0 H1). unfold otp_ok in Hok. fold otp in Hok.
  rewrite !andb_true_iff in Hok. destruct Hok as [[[Hlen Hhd] Hdig] Hval].
  apply Nat.eqb_eq in Hlen. apply Z.eqb_eq in Hval.
  split; [exact Hlen|]. split.
  { destruct otp as [|c rest]; [discriminate|]. apply Ascii.eqb_eq in Hhd.
    exists rest. rewrite Hhd. reflexivity. }
  split.
  { apply Forall_forall. intros c Hc. rewrite forallb_forall in Hdig.
    specialize (Hdig c Hc). apply andb_true_iff in Hdig.
    destruct Hdig as [Hlo Hhi]. apply Nat.leb_le in Hlo, Hhi. lia. }
  split; [exact Hval|]. split; [lia|].
  intros b0' b1' H0' H1' E.
  assert (Hok' := otp_ok_bytes H0' H1'). unfold otp_ok in Hok'.
  rewrite !andb_true_iff in Hok'. destruct Hok' as [_ Hval'].
  apply Z.eqb_eq in Hval'. rewrite E, Hval in Hval'. lia.
Qed.

(** ** The reports do not depend on the stored order *)

Section OrderFacts.
Variable A : Type.
Variable key_of : A -> period.
Variable R : A -> A -> Prop.
Hypothesis R_antisym : forall a b, R a b -> R b a -> key_of a = key_of b.

(** Two sorted lists with the same items, no key twice, are the same list. *)
Lemma sorted_perm_unique (l l' : list A) :
  Permutation l l' ->
  StronglySorted R l -> StronglySorted R l' ->
  NoDup (map key_of l) ->
  l = l'.
Proof.
  revert l'. induction l as [|x t IH]; intros l' Hperm Hs Hs' Hnd.
  - apply Permutation_nil in Hperm. symmetry. exact Hperm.
  - destruct l' as [|y t'].
    { apply Permutation_sym, Permutation_nil in Hperm. discriminate. }
    inversion Hs as [|? ? Hst Hall]; subst.
    inversion Hs' as [|? ? Hst' Hall']; subst.
    inversion Hnd as [|? ? Hnotin Hnd']; subst.
    assert (Exy : x = y).
    { assert (Hx : In x (y :: t'))
        by (apply (Permutation_in _ Hperm); left; reflexivity).
      assert (Hy : In y (x :: t))
        by (apply (Permutation_in _ (Permutation_sym Hperm)); left; reflexivity).
      destruct Hx as [->|Hx]; [reflexivity|].
      destruct Hy as [->|Hy]; [reflexivity|].
      rewrite Forall_forall in Hall, Hall'.
      exfalso. apply Hnotin.
      rewrite (R_antisym (Hall y Hy) (Hall' x Hx)). apply in_map. exact Hy. }
    subst y. f_equal. apply IH; try assumption.
    exact (Permutation_cons_inv Hperm).
Qed.

End OrderFacts.

Section OrderTheorems.
Context {F : Type} {num : Num F}.

Lemma sort_asc_perm_unique (bills bills' : list (BillRead.t F)) :
  Permutation bills bills' ->
  NoDup (map bill_key bills) ->
  sort_asc (get_usage_points bills) = sort_asc (get_usage_points bills')
  /\ sort_desc (get_usage_points bills) = sort_desc (get_usage_points bills').
Proof.
  intros Hperm Hnd.
  assert (Hk : forall l : list (BillRead.t F),
             map key (get_usage_points l) = map bill_key l).
  { intros l. unfold get_usage_points. rewrite map_map. reflexivity. }
  assert (Hp : Permutation (get_usage_points bills) (get_usage_points bills'))
    by (apply Permutation_map; exact Hperm).
  split.
  - apply (@sorted_perm_unique _ key asc).
    + intros a b H1 H2. apply period_le_antisym; assumption.
    + eapply perm_trans; [apply sort_asc_perm|].
      eapply perm_trans; [exact Hp|apply Permutation_sym, sort_asc_perm].
    + apply sort_asc_sorted.
    + apply sort_asc_sorted.
    + apply (Permutation_NoDup
               (Permutation_sym (Permutation_map key (sort_asc_perm _)))).
      rewrite Hk. exact Hnd.
  - apply (@sorted_perm_unique _ key desc).
    + intros a b H1 H2. apply period_le_antisym; assumption.
    + eapply perm_trans; [apply sort_desc_perm|].
      eapply perm_trans; [exact Hp|apply Permutation_sym, sort_desc_perm].
    + apply sort_desc_sorted.
    + apply sort_desc_sorted.
    + apply (Permutation_NoDup
               (Permutation_sym (Permutation_map key (sort_desc_perm _)))).
      rewrite Hk. exact Hnd.
Qed.

(** X24: when no period is stored twice, the forecast, the trends, the
    recent usage and the averages do not depend on the order in which the
    bills are stored; this holds on binary64 too, since these operations
    compute on the sorted points only. *)
Theorem X24_reports_ignore_stored_order :
  forall (bills bills' : list (BillRead.t F)) (horizon limit : Z),
    Permutation bills bills' ->
    NoDup (map bill_key bills) ->
    predict_usage bills horizon = predict_usage bills' horizon
    /\ analyze_trends bills = analyze_trends bills'
    /\ get_recent_usage bills limit = get_recent_usage bills' limit
    /\ averages bills = averages bills'.
Proof.
  intros bills bills' horizon limit Hperm Hnd.
  destruct (sort_asc_perm_unique Hperm Hnd) as [Ha Hd].
  unfold predict_usage, analyze_trends, get_recent_usage, averages.
  rewrite Ha, Hd. repeat split; reflexivity.
Qed.

End OrderTheorems.

(** ** The further properties at sample stores *)

Lemma period_ltb_lt (a b : period) : period_ltb a b = true -> period_lt a b.
Proof.
  unfold period_ltb. rewrite andb_true_iff, negb_true_iff. intros [H1 H2].
  apply period_leb_le in H1. apply period_le_neq_lt; [exact H1|].
  intros ->. rewrite (proj2 (period_leb_le b b) (period_le_refl b)) in H2.
  discriminate.
Qed.

Lemma strictly_ascending_sorted (F : Type) (l : list (BillRead.t F)) :
  strictly_ascending (map bill_key l) = true -> bills_strictly_sorted l.
Proof.
  induction l as [|b t IH]; simpl; intros H; [constructor|].
  apply andb_true_iff in H. destruct H as [Hb Ht].
  constructor; [apply IH; exact Ht|].
  apply Forall_forall. intros c Hc. rewrite forallb_forall in Hb.
  apply period_ltb_lt. apply Hb. apply in_map. exact Hc.
Qed.

Lemma store_2023_strictly_sorted : bills_strictly_sorted (list_bills store_2023).
Proof. apply strictly_ascending_sorted. vm_compute. reflexivity. Defined.

Lemma store_2023_sorted : bills_sorted (list_bills store_2023).
Proof. apply strictly_sorted_sorted. exact store_2023_strictly_sorted. Defined.

Lemma X4_ids_fresh_witness :
  reachable store_2023
  /\ ids_fresh store_2023
  /\ forall bill : BillCreate.t PrimFloat.float,
       (forall b, In b (list_bills store_2023) ->
                  BillRead.id b <> BillRead.id (fst (add_bill store_2023 bill)))
       /\ (NoDup (map (@BillRead.id PrimFloat.float) (list_bills store_2023)) ->
           NoDup (map (@BillRead.id PrimFloat.float)
                    (list_bills (snd (add_bill store_2023 bill))))).
Proof.
  assert (H : reachable store_2023)
    by (unfold store_2023; repeat apply reachable_add; apply reachable_load).
  split; [exact H|]. exact (@X4_ids_fresh _ store_2023 H).
Defined.

Lemma X5_latest_bill_is_latest_witness :
  bills_sorted (list_bills store_2023)
  /\ match latest_bill store_2023 with
     | None => list_bills store_2023 = []
     | Some b =>
         latest_period (list_bills store_2023) (bill_key b)
         /\ In b (list_bills store_2023)
     end.
Proof.
  split; [exact store_2023_sorted|].
  exact (@X5_latest_bill_is_latest _ store_2023 store_2023_sorted).
Defined.

Lemma X6_create_bill_keeps_periods_distinct_witness :
  bills_strictly_sorted (list_bills store_2023)
  /\ create_bill ["t"%string] store_2023 "Bearer t" (inr (create_f 2022 12 80 15))
     = Ok (Created (fst (add_bill store_2023 (create_f 2022 12 80 15))),
           snd (add_bill store_2023 (create_f 2022 12 80 15)))
  /\ bills_strictly_sorted
       (list_bills (snd (add_bill store_2023 (create_f 2022 12 80 15))))
  /\ NoDup (map bill_key
              (list_bills (snd (add_bill store_2023 (create_f 2022 12 80 15))))).
Proof.
  assert (Hc : create_bill ["t"%string] store_2023 "Bearer t"
                 (inr (create_f 2022 12 80 15))
               = Ok (Created (fst (add_bill store_2023 (create_f 2022 12 80 15))),
                     snd (add_bill store_2023 (create_f 2022 12 80 15))))
    by (vm_compute; reflexivity).
  split; [exact store_2023_strictly_sorted|]. split; [exact Hc|].
  exact (@X6_create_bill_keeps_periods_distinct _ _ _ _ _ _ _
           store_2023_strictly_sorted Hc).
Defined.

Lemma X7_current_month_report_latest_point_witness :
  bills_sorted (list_bills store_2023)
  /\ match current_month_report store_2023 with
     | None => list_bills store_2023 = []
     | Some r =>
         latest_period (list_bills store_2023)
           (CurrentMonthReport.year r, CurrentMonthReport.month r)
         /\ (exists b, In b (list_bills store_2023) /\ r = report_of b)
         /\ exists p,
              py_last (sort_asc (get_usage_points (list_bills store_2023))) = Ok p
              /\ r = report_of_point p
     end.
Proof.
  split; [exact store_2023_sorted|].
  exact (@X7_current_month_report_latest_point _ _ store_2023 store_2023_sorted).
Defined.

Lemma X8_recent_usage_reverses_store_witness :
  bills_strictly_sorted (list_bills store_2023)
  /\ get_recent_usage (list_bills store_2023) 2
     = firstn (Z.to_nat (Z.max 0 2)) (rev (get_usage_points (list_bills store_2023))).
Proof.
  split; [exact store_2023_strictly_sorted|].
  exact (@X8_recent_usage_reverses_store _ _ (list_bills store_2023) 2
           store_2023_strictly_sorted).
Defined.

Lemma bills_2023_latest : latest_period bills_2023 (2023, 3).
Proof.
  split.
  - eexists. split; [right; left; reflexivity|reflexivity].
  - intros b [<-|[<-|[<-|[]]]]; unfold period_le, bill_key; simpl; lia.
Defined.

Lemma X10_predict_periods_follow_the_calendar_witness :
  latest_period bills_2023 (2023, 3)
  /\ 1 <= 3 <= 12
  /\ exists r,
       predict_usage bills_2023 11 = Ok r
       /\ forall (k : nat) (p : PredictionPoint.t PrimFloat.float),
            nth_error (PredictionResult.predictions r) k = Some p ->
            1 <= PredictionPoint.month p <= 12
            /\ 12 * PredictionPoint.year p + PredictionPoint.month p
               = 12 * 2023 + 3 + Z.of_nat k + 1.
Proof.
  split; [exact bills_2023_latest|]. split; [lia|].
  exact (@X10_predict_periods_follow_the_calendar _ _ bills_2023 11 2023 3
           bills_2023_latest ltac:(lia)).
Defined.

Lemma bills_q_line :
  map (@UsagePoint.kilowatt_hours Qc) (sort_asc (get_usage_points bills_q))
  = map (fun i => (Qc_of_int (-100) + Qc_of_int 200 * Qc_of_int (Z.of_nat i))%Qc)
      (seq 1 2).
Proof.
  simpl. repeat (f_equal; try (apply Qc_is_canon; reflexivity)).
Defined.




Lemma bills_q_uniform :
  forall b, In b bills_q ->
            (0 < BillRead.kilowatt_hours b)%Qc
            /\ BillRead.emission_factor_kg_per_kwh b = Q2Qc (7 # 10).
Proof.
  intros b [<-|[<-|[]]]; split; reflexivity.
Defined.



Lemma X17_averages_last_month_is_current_month_witness :
  bills_sorted (list_bills store_2023)
  /\ exists resp,
       averages (list_bills store_2023) = Ok resp
       /\ AveragesResponse.last_month resp
          = match current_month_report store_2023 with
            | Some r =>
                KwhEmissions.mk (CurrentMonthReport.kilowatt_hours r)
                  (CurrentMonthReport.emissions_kg r)
            | None => KwhEmissions.mk (of_int 0) (of_int 0)
            end.
Proof.
  split; [exact store_2023_sorted|].
  exact (@X17_averages_last_month_is_current_month _ _ store_2023 store_2023_sorted).
Defined.


Lemma served_add_bill (s : InMemoryStorage.t PrimFloat.float)
  (bill : BillCreate.t PrimFloat.float) :
  served s ->
  find_bill s (BillCreate.year bill) (BillCreate.month bill) = None ->
  served (snd (add_bill s bill)).
Proof.
  intros Hs E.
  apply (@served_create _ ["t"%string] s (snd (add_bill s bill)) "Bearer t"%string
           (inr bill) (Created (fst (add_bill s bill))) Hs).
  unfold create_bill. change (bearer_token_issued ["t"%string] "Bearer t") with (Ok true).
  cbv beta iota zeta delta [bind negb]. rewrite E. reflexivity.
Defined.

Lemma store_2023_served : served store_2023.
Proof.
  unfold store_2023.
  repeat (apply served_add_bill; [|vm_compute; reflexivity]).
  apply served_start.
Defined.

Lemma X22_served_store_invariants_witness :
  served store_2023
  /\ bills_strictly_sorted (list_bills store_2023)
  /\ IdCounter.next_id (InMemoryStorage._id_counter store_2023)
     = Z.of_nat (length (list_bills store_2023)) + 1
  /\ NoDup (map (@BillRead.id PrimFloat.float) (list_bills store_2023))
  /\ forall b, In b (list_bills store_2023) ->
               1 <= BillRead.id b <= Z.of_nat (length (list_bills store_2023)).
Proof.
  split; [exact store_2023_served|].
  exact (@X22_served_store_invariants _ store_2023 store_2023_served).
Defined.

Lemma X23_otp_is_sixteen_bits_witness :
  0 <= 1 < 256 /\ 0 <= 2 < 256
  /\ String.length (otp_of_random [1; 2]) = 6%nat
  /\ int_of_digits (otp_of_random [1; 2]) = 256 * 1 + 2.
Proof.
  assert (H1 : 0 <= 1 < 256) by lia. assert (H2 : 0 <= 2 < 256) by lia.
  split; [exact H1|]. split; [exact H2|].
  destruct (@X23_otp_is_sixteen_bits 1 2 H1 H2) as [Hl [_ [_ [Hv _]]]].
  split; [exact Hl|exact Hv].
Defined.

Lemma bills_2023_periods_distinct : NoDup (map (@bill_key PrimFloat.float) bills_2023).
Proof.
  repeat (constructor; [simpl; intuition discriminate|]). constructor.
Defined.

Lemma X24_reports_ignore_stored_order_witness :
  Permutation bills_2023 (rev bills_2023)
  /\ NoDup (map (@bill_key PrimFloat.float) bills_2023)
  /\ predict_usage bills_2023 3 = predict_usage (rev bills_2023) 3
  /\ analyze_trends bills_2023 = analyze_trends (rev bills_2023)
  /\ get_recent_usage bills_2023 6 = get_recent_usage (rev bills_2023) 6
  /\ averages bills_2023 = averages (rev bills_2023).
Proof.
  assert (H : Permutation bills_2023 (rev bills_2023)) by apply Permutation_rev.
  split; [exact H|]. split; [exact bills_2023_periods_distinct|].
  exact (@X24_reports_ignore_stored_order _ _ bills_2023 (rev bills_2023) 3 6 H
           bills_2023_periods_distinct).
Defined.
